(** * EstimIA: the recompute-and-aggregate engine of the results dashboard

    A shallow embedding of the deterministic part of the application:
    the role-key normalisation, the rate store and its edit operation,
    the cost aggregation, the duration resolver, the roadmap bar
    placement, the month/week timeline grid, and the analyse transition
    of the top-level component.

    Conventions of the embedding.
    - A JavaScript [number] is an exact rational, or one of NaN,
      +Infinity, -Infinity.  Rounding and overflow of binary64 and the
      sign of zero are not represented.
    - Numbers read from the estimate document are finite (they come out
      of [JSON.parse]) and have type [Qc].
    - Strings are sequences of 8-bit characters; white space and letter
      case are those of the ASCII range.
    - A plain object used as a dictionary is a finite map ([gmap]) when
      only lookups matter and an association list in insertion order
      when its values are enumerated; the properties it inherits from
      [Object.prototype] are not represented. *)

From Stdlib Require Import ZArith QArith Qcanon Qround String Ascii List Lia.
From stdpp Require Import gmap strings list fin_maps pretty.

Local Open Scope Z_scope.

(** ** JavaScript numbers *)

Module JS.

Inductive number : Type :=
| NaN
| PInf
| NInf
| Fin (q : Qc).

Definition zero : number := Fin (Q2Qc 0).

Definition of_Z (z : Z) : number := Fin (Q2Qc (inject_Z z)).

Definition Qc_sign (q : Qc) : comparison := (Qnum (this q) ?= 0)%Z.

(** [a + b] *)
Definition add (a b : number) : number :=
  match a, b with
  | NaN, _ | _, NaN => NaN
  | PInf, NInf | NInf, PInf => NaN
  | PInf, _ | _, PInf => PInf
  | NInf, _ | _, NInf => NInf
  | Fin x, Fin y => Fin (x + y)%Qc
  end.

Definition neg (a : number) : number :=
  match a with
  | NaN => NaN
  | PInf => NInf
  | NInf => PInf
  | Fin x => Fin (- x)%Qc
  end.

(** [a - b] *)
Definition sub (a b : number) : number := add a (neg b).

Definition inf_of_sign (c : comparison) : number :=
  match c with
  | Eq => NaN
  | Gt => PInf
  | Lt => NInf
  end.

(** [a * b] *)
Definition mul (a b : number) : number :=
  match a, b with
  | NaN, _ | _, NaN => NaN
  | PInf, PInf | NInf, NInf => PInf
  | PInf, NInf | NInf, PInf => NInf
  | PInf, Fin y | Fin y, PInf => inf_of_sign (Qc_sign y)
  | NInf, Fin y | Fin y, NInf => inf_of_sign (CompOpp (Qc_sign y))
  | Fin x, Fin y => Fin (x * y)%Qc
  end.

(** [a / b] *)
Definition div (a b : number) : number :=
  match a, b with
  | NaN, _ | _, NaN => NaN
  | (PInf | NInf), (PInf | NInf) => NaN
  | PInf, Fin y => match Qc_sign y with Lt => NInf | _ => PInf end
  | NInf, Fin y => match Qc_sign y with Lt => PInf | _ => NInf end
  | Fin _, (PInf | NInf) => zero
  | Fin x, Fin y =>
      match Qc_sign y with
      | Eq => inf_of_sign (Qc_sign x)
      | _ => Fin (x / y)%Qc
      end
  end.

(** [a <= b]; every comparison with NaN is false. *)
Definition leb (a b : number) : bool :=
  match a, b with
  | NaN, _ | _, NaN => false
  | NInf, _ | _, PInf => true
  | PInf, _ | _, NInf => false
  | Fin x, Fin y => bool_decide (x <= y)%Qc
  end.

(** [a < b] *)
Definition ltb (a b : number) : bool :=
  match a, b with
  | NaN, _ | _, NaN => false
  | PInf, _ | _, NInf => false
  | NInf, _ | _, PInf => true
  | Fin x, Fin y => bool_decide (x < y)%Qc
  end.

(** [Math.max(a, b)] on two arguments. *)
Definition max2 (a b : number) : number :=
  match a, b with
  | NaN, _ | _, NaN => NaN
  | _, _ => if ltb a b then b else a
  end.

(** [Math.max(...xs)]: the largest argument, -Infinity for none, NaN as
    soon as one argument is NaN. *)
Definition Math_max (xs : list number) : number := fold_left max2 xs NInf.

(** [Math.ceil(a)] *)
Definition Math_ceil (a : number) : number :=
  match a with
  | Fin x => of_Z (Qceiling (this x))
  | other => other
  end.

(** Truthiness of a number: NaN and 0 are falsy. *)
Definition truthy (a : number) : bool :=
  match a with
  | NaN => false
  | Fin x => negb (bool_decide (x = Q2Qc 0))
  | _ => true
  end.

(** [a || d] on numbers. *)
Definition or_else (a d : number) : number := if truthy a then a else d.

(** [xs.reduce((acc, x) => acc + x, 0)] *)
Definition sum (xs : list number) : number := fold_left add xs zero.

End JS.

Export JS (number, NaN, PInf, NInf, Fin).

#[global] Instance number_eq_dec : EqDecision number.
Proof. solve_decision. Defined.

Declare Scope js_scope.
Delimit Scope js_scope with js.
Bind Scope js_scope with number.
Infix "+" := JS.add : js_scope.
Infix "-" := JS.sub : js_scope.
Infix "*" := JS.mul : js_scope.
Infix "/" := JS.div : js_scope.

(** ** Strings and the role key *)

Local Open Scope string_scope.
Local Open Scope Z_scope.

(** The characters matched by [\s] (tab, line feed, vertical tab, form
    feed, carriage return, space). *)
Definition is_space (c : ascii) : bool :=
  let n := nat_of_ascii c in
  ((9 <=? n)%nat && (n <=? 13)%nat) || (n =? 32)%nat.

Definition is_upper (c : ascii) : bool :=
  let n := nat_of_ascii c in
  (65 <=? n)%nat && (n <=? 90)%nat.

Definition lower_char (c : ascii) : ascii :=
  if is_upper c then ascii_of_nat (nat_of_ascii c + 32) else c.

Definition upper_char (c : ascii) : ascii :=
  let n := nat_of_ascii c in
  if (97 <=? n)%nat && (n <=? 122)%nat then ascii_of_nat (n - 32) else c.

(** [s.toLowerCase()] *)
Fixpoint toLowerCase (s : string) : string :=
  match s with
  | EmptyString => EmptyString
  | String c r => String (lower_char c) (toLowerCase r)
  end.

(** [s.toUpperCase()] *)
Fixpoint toUpperCase (s : string) : string :=
  match s with
  | EmptyString => EmptyString
  | String c r => String (upper_char c) (toUpperCase r)
  end.

(** [s.replace(/\s+/g, '_')] as a left-to-right scan: [in_run] tells
    that the previous character belonged to a white-space run, whose
    underscore has already been emitted. *)
Fixpoint replace_spaces (in_run : bool) (s : string) : string :=
  match s with
  | EmptyString => EmptyString
  | String c r =>
      if is_space c
      then if in_run then replace_spaces true r
           else String "_" (replace_spaces true r)
      else String c (replace_spaces false r)
  end.

(** [const sanitizeRole = (role) => role.replace(/\s+/g, '_').toLowerCase()] *)
Definition sanitizeRole (role : string) : string :=
  toLowerCase (replace_spaces false role).


(** A non-empty run of white-space characters. *)
Fixpoint all_spaces (s : string) : bool :=
  match s with
  | EmptyString => true
  | String c r => is_space c && all_spaces r
  end.

Definition white_run (s : string) : Prop :=
  s <> EmptyString /\ all_spaces s = true.

(** Two labels that are the same label written differently: they differ
    in the case of letters and in the length or the kind of the
    white-space runs between the same words. *)
Inductive same_label : string -> string -> Prop :=
| same_refl s : same_label s s
| same_sym s t : same_label s t -> same_label t s
| same_trans s t u : same_label s t -> same_label t u -> same_label s u
| same_case a c d b :
    lower_char c = lower_char d ->
    same_label (a ++ String c b) (a ++ String d b)
| same_space a r1 r2 b :
    white_run r1 -> white_run r2 ->
    same_label (a ++ r1 ++ b) (a ++ r2 ++ b).


(** ** Regular expressions and the rate pattern *)

(** The fragment of regular expressions the program uses, with the
    usual language semantics; [test] below is anchored at both ends, as
    the pattern [/^...$/] is. *)
Inductive regex : Type :=
| Eps
| Class (p : ascii -> bool)
| Cat (r1 r2 : regex)
| Alt (r1 r2 : regex)
| Star (r : regex).

Inductive matches : regex -> string -> Prop :=
| m_eps : matches Eps EmptyString
| m_class p c : p c = true -> matches (Class p) (String c EmptyString)
| m_cat r1 r2 s1 s2 :
    matches r1 s1 -> matches r2 s2 -> matches (Cat r1 r2) (s1 ++ s2)
| m_alt_l r1 r2 s : matches r1 s -> matches (Alt r1 r2) s
| m_alt_r r1 r2 s : matches r2 s -> matches (Alt r1 r2) s
| m_star_nil r : matches (Star r) EmptyString
| m_star_cons r s1 s2 :
    matches r s1 -> matches (Star r) s2 -> matches (Star r) (s1 ++ s2).

(** [\d] *)
Definition is_digit (c : ascii) : bool :=
  let n := nat_of_ascii c in
  (48 <=? n)%nat && (n <=? 57)%nat.

Definition is_dot (c : ascii) : bool := bool_decide (c = "."%char).

(** [r?] *)
Definition Opt (r : regex) : regex := Alt r Eps.

(** [/^\d*\.?\d*$/] *)
Definition rate_regex : regex :=
  Cat (Star (Class is_digit)) (Cat (Opt (Class is_dot)) (Star (Class is_digit))).

(** The longest prefix of digits, and what follows it. *)
Fixpoint span_digits (s : string) : string * string :=
  match s with
  | EmptyString => (EmptyString, EmptyString)
  | String c r =>
      if is_digit c
      then let '(d, rest) := span_digits r in (String c d, rest)
      else (EmptyString, s)
  end.

(** [/^\d*\.?\d*$/.test(s)], decided by one scan: digits, at most one
    dot, digits, end of input. *)
Definition rate_pattern_test (s : string) : bool :=
  let '(_, r1) := span_digits s in
  let r2 := match r1 with
            | String c r => if is_dot c then r else r1
            | EmptyString => r1
            end in
  let '(_, r3) := span_digits r2 in
  bool_decide (r3 = EmptyString).

Fixpoint all_digits (s : string) : bool :=
  match s with
  | EmptyString => true
  | String c r => is_digit c && all_digits r
  end.

(** ** Conversion of rate entries to numbers *)

(** The value of a string of decimal digits, most significant first. *)
Fixpoint digits_value (acc : Z) (s : string) : Z :=
  match s with
  | EmptyString => acc
  | String c r => digits_value (10 * acc + (Z.of_nat (nat_of_ascii c) - 48)) r
  end.

(** The number written [a.b]. *)
Definition decimal_value (a b : string) : Qc :=
  Q2Qc (Qmake (digits_value 0 (a ++ b))
              (Z.to_pos (10 ^ Z.of_nat (String.length b)))).

(** [Number(s)] on an unsigned decimal literal without exponent:
    [""] is 0, [digits], [digits.], [.digits] and [digits.digits] have
    their decimal value, and anything else is NaN.  The forms that
    JavaScript converts besides these (a sign, an exponent, a radix
    prefix, [Infinity], surrounding white space) never pass
    [handleRateChange] and are not represented: they convert to NaN
    here. *)
Definition Number_of_string (s : string) : number :=
  if bool_decide (s = EmptyString) then JS.zero
  else
    let '(a, r1) := span_digits s in
    match r1 with
    | EmptyString => Fin (decimal_value a EmptyString)
    | String c r =>
        if is_dot c then
          let '(b, r3) := span_digits r in
          if bool_decide (r3 = EmptyString)
             && negb (bool_decide (a = EmptyString) && bool_decide (b = EmptyString))
          then Fin (decimal_value a b)
          else NaN
        else NaN
    end.

(** An entry of the rate store: [string | number]. *)
Inductive RateValue : Type :=
| RNum (n : number)
| RStr (s : string).

#[global] Instance RateValue_eq_dec : EqDecision RateValue.
Proof. solve_decision. Defined.

(** [Number(v)] for [v : string | number | undefined]. *)
Definition ToNumber (v : option RateValue) : number :=
  match v with
  | None => NaN
  | Some (RNum n) => n
  | Some (RStr s) => Number_of_string s
  end.

(** [v !== undefined] *)
Definition is_defined (v : option RateValue) : bool :=
  match v with
  | None => false
  | Some _ => true
  end.

(** [v === ''] *)
Definition is_empty_string (v : option RateValue) : bool :=
  match v with
  | Some (RStr s) => bool_decide (s = EmptyString)
  | _ => false
  end.

(** ** The estimate document *)

Inductive Complexity : Type := LOW | MEDIUM | HIGH.

Inductive Impact : Type := Alto | Medio | Bajo.

Module PhaseTask.
Record t : Type := mk {
  name : string;
  hours : Qc;
  cost : Qc;
  assignedRole : string;
  hourlyRate : Qc }.
End PhaseTask.

(** [estimatedCost] is the one field the aggregation overwrites with a
    computed value, hence a [number]. *)
Module PhaseEstimate.
Record t : Type := mk {
  name : string;
  description : string;
  estimatedHours : Qc;
  estimatedCost : number;
  complexity : Complexity;
  assignedRole : string;
  tasks : list PhaseTask.t }.
End PhaseEstimate.

Module Risk.
Record t : Type := mk {
  risk : string;
  mitigation : string;
  impact : Impact }.
End Risk.

Module RoleRate.
Record t : Type := mk {
  role : string;
  rate : Qc;
  currency : string }.
End RoleRate.

Module CostBreakdownItem.
Record t : Type := mk {
  role : string;
  totalHours : Qc;
  hourlyRate : Qc;
  subtotalCost : Qc;
  currency : string }.
End CostBreakdownItem.

Module RoadmapItem.
Record t : Type := mk {
  phaseName : string;
  startWeek : Qc;
  endWeek : Qc;
  milestone : string }.
End RoadmapItem.

Module Range.
Record t : Type := mk {
  min : Qc;
  max : Qc }.
End Range.

Module CostRange.
Record t : Type := mk {
  min : Qc;
  max : Qc;
  currency : string }.
End CostRange.

Module EstimationResult.
Record t : Type := mk {
  projectName : string;
  requesterName : string;
  requestDate : string;
  executiveSummary : string;
  totalEstimatedCost : CostRange.t;
  totalEstimatedDurationWeeks : Range.t;
  totalEstimatedHours : Range.t;
  hourlyRates : list RoleRate.t;
  costBreakdown : list CostBreakdownItem.t;
  roadmap : list RoadmapItem.t;
  recommendedTechStack : list string;
  phases : list PhaseEstimate.t;
  risks : list Risk.t;
  teamComposition : list string }.
End EstimationResult.

(** ** The rate store *)

(** [roleRates : Record<string, string | number>] *)
Abbreviation RateStore := (gmap string RateValue).

(** The effect that initialises the store:
    [data.costBreakdown.forEach(item => initialRates[sanitizeRole(item.role)] = item.hourlyRate)] *)
Definition init_from_breakdown (initialRates : gmap string Qc)
    (item : CostBreakdownItem.t) : gmap string Qc :=
  <[sanitizeRole (CostBreakdownItem.role item) := CostBreakdownItem.hourlyRate item]>
    initialRates.

(** [!initialRates[key]]: the key is missing, or it holds 0. *)
Definition rate_missing (initialRates : gmap string Qc) (key : string) : bool :=
  match initialRates !! key with
  | None => true
  | Some q => negb (JS.truthy (Fin q))
  end.

(** The body of [phase.tasks.forEach(task => ...)] in the effect. *)
Definition init_from_task (initialRates : gmap string Qc)
    (task : PhaseTask.t) : gmap string Qc :=
  let key := sanitizeRole (PhaseTask.assignedRole task) in
  if rate_missing initialRates key
  then <[key := PhaseTask.hourlyRate task]> initialRates
  else initialRates.

Definition init_from_phase (initialRates : gmap string Qc)
    (phase : PhaseEstimate.t) : gmap string Qc :=
  fold_left init_from_task (PhaseEstimate.tasks phase) initialRates.

(** The object passed to [setRoleRates] by the effect. *)
Definition initialRates (data : EstimationResult.t) : gmap string Qc :=
  fold_left init_from_phase (EstimationResult.phases data)
    (fold_left init_from_breakdown (EstimationResult.costBreakdown data) ∅).

Definition initialStore (data : EstimationResult.t) : RateStore :=
  (fun q => RNum (Fin q)) <$> initialRates data.

(** [handleRateChange(role, newRate)]: the next value of [roleRates]. *)
Definition handleRateChange (roleRates : RateStore) (role newRate : string)
    : RateStore :=
  if bool_decide (newRate = EmptyString) || rate_pattern_test newRate
  then <[sanitizeRole role := RStr newRate]> roleRates
  else roleRates.

(** The store of a dashboard: [{}] until the effect has run, then the
    initial rates of the document, then whatever the edits made of it. *)
Inductive store_event : Type :=
| EffectRun
| RateEdit (role newRate : string).

Definition store_step (data : EstimationResult.t) (roleRates : RateStore)
    (e : store_event) : RateStore :=
  match e with
  | EffectRun => initialStore data
  | RateEdit role newRate => handleRateChange roleRates role newRate
  end.

Definition store_after (data : EstimationResult.t) (es : list store_event)
    : RateStore :=
  fold_left (store_step data) es ∅.

(** The strings an edit may put into the store. *)
Definition accepted_rate (s : string) : Prop :=
  s = EmptyString \/ matches rate_regex s.

(** Every string held by the store is an accepted one. *)
Definition store_wf (roleRates : RateStore) : Prop :=
  forall (key s : string), roleRates !! key = Some (RStr s) -> accepted_rate s.


Definition backfill_absent (m : gmap string Qc) (task : PhaseTask.t)
    : gmap string Qc :=
  let key := sanitizeRole (PhaseTask.assignedRole task) in
  match m !! key with
  | None => <[key := PhaseTask.hourlyRate task]> m
  | Some _ => m
  end.

Definition all_tasks (data : EstimationResult.t) : list PhaseTask.t :=
  concat (map PhaseEstimate.tasks (EstimationResult.phases data)).


(** The store as the effect builds it when a task contributes exactly
    when its key is not yet present. *)
Definition initialRates_absent (data : EstimationResult.t) : gmap string Qc :=
  fold_left backfill_absent (all_tasks data)
    (fold_left init_from_breakdown (EstimationResult.costBreakdown data) ∅).





(** ** The aggregation engine *)

(** The rate applied to a task, given the store entry of its role:
    [rawRate !== undefined && rawRate !== '' ? Number(rawRate)
       : (rawRate === '' ? 0 : task.hourlyRate)].
    The source writes this expression out at each of its uses. *)
Definition select_rate (rawRate : option RateValue) (task : PhaseTask.t) : number :=
  if is_defined rawRate && negb (is_empty_string rawRate)
  then ToNumber rawRate
  else if is_empty_string rawRate then JS.zero
       else Fin (PhaseTask.hourlyRate task).

(** The rate and the cost of a task under a store. *)
Definition effectiveRate (roleRates : RateStore) (task : PhaseTask.t) : number :=
  select_rate (roleRates !! sanitizeRole (PhaseTask.assignedRole task)) task.

Definition taskCost (roleRates : RateStore) (task : PhaseTask.t) : number :=
  (Fin (PhaseTask.hours task) * effectiveRate roleRates task)%js.

(** A task as [PhaseCard] shows it: [{...task, hourlyRate: rate, cost}]. *)
Module DynamicTask.
Record t : Type := mk {
  task : PhaseTask.t;
  hourlyRate : number;
  cost : number }.
End DynamicTask.



(** A value of [breakdownMap]. *)
Module BreakdownEntry.
Record t : Type := mk {
  hours : number;
  cost : number;
  role : string }.
End BreakdownEntry.

(** [breakdownMap], with its keys in insertion order. *)
Abbreviation BreakdownMap := (list (string * BreakdownEntry.t)).

Fixpoint bm_lookup (key : string) (m : BreakdownMap) : option BreakdownEntry.t :=
  match m with
  | [] => None
  | (k, e) :: rest => if bool_decide (k = key) then Some e else bm_lookup key rest
  end.

(** In-place change of the entry under [key]. *)
Fixpoint bm_alter (f : BreakdownEntry.t -> BreakdownEntry.t) (key : string)
    (m : BreakdownMap) : BreakdownMap :=
  match m with
  | [] => []
  | (k, e) :: rest =>
      if bool_decide (k = key) then (k, f e) :: rest
      else (k, e) :: bm_alter f key rest
  end.

(** The variables the two nested loops of the memo update. *)
Record Totals : Type := mkTotals {
  phaseCost : number;
  breakdownMap : BreakdownMap;
  totalCost : number;
  totalHours : number }.

(** The body of [phase.tasks.forEach(task => ...)] in the memo. *)
Definition process_task (roleRates : RateStore) (s : Totals) (task : PhaseTask.t)
    : Totals :=
  let roleKey := sanitizeRole (PhaseTask.assignedRole task) in
  let rawRate := roleRates !! roleKey in
  let rate := select_rate rawRate task in
  let taskCost := (Fin (PhaseTask.hours task) * rate)%js in
  let created :=
    match bm_lookup roleKey (breakdownMap s) with
    | Some _ => breakdownMap s
    | None =>
        (breakdownMap s ++
          [(roleKey, BreakdownEntry.mk JS.zero JS.zero (PhaseTask.assignedRole task))])%list
    end in
  let with_hours :=
    bm_alter (fun e => BreakdownEntry.mk
                         (BreakdownEntry.hours e + Fin (PhaseTask.hours task))%js
                         (BreakdownEntry.cost e) (BreakdownEntry.role e))
             roleKey created in
  let with_cost :=
    bm_alter (fun e => BreakdownEntry.mk
                         (BreakdownEntry.hours e)
                         (BreakdownEntry.cost e + taskCost)%js (BreakdownEntry.role e))
             roleKey with_hours in
  {| phaseCost := (phaseCost s + taskCost)%js;
     breakdownMap := with_cost;
     totalCost := (totalCost s + taskCost)%js;
     totalHours := (totalHours s + Fin (PhaseTask.hours task))%js |}.

(** [{ ...phase, estimatedCost: phaseCost }] *)
Definition with_estimatedCost (phase : PhaseEstimate.t) (c : number)
    : PhaseEstimate.t :=
  PhaseEstimate.mk (PhaseEstimate.name phase) (PhaseEstimate.description phase)
    (PhaseEstimate.estimatedHours phase) c (PhaseEstimate.complexity phase)
    (PhaseEstimate.assignedRole phase) (PhaseEstimate.tasks phase).

(** The callback of [data.phases.map(phase => ...)]: [phaseCost] starts
    at 0 for each phase, the other three variables are shared. *)
Definition process_phase (roleRates : RateStore) (s : Totals)
    (phase : PhaseEstimate.t) : PhaseEstimate.t * Totals :=
  let s' := fold_left (process_task roleRates) (PhaseEstimate.tasks phase)
              {| phaseCost := JS.zero;
                 breakdownMap := breakdownMap s;
                 totalCost := totalCost s;
                 totalHours := totalHours s |} in
  (with_estimatedCost phase (phaseCost s'), s').

Fixpoint process_phases (roleRates : RateStore) (s : Totals)
    (phases : list PhaseEstimate.t) : list PhaseEstimate.t * Totals :=
  match phases with
  | [] => ([], s)
  | phase :: rest =>
      let '(p, s1) := process_phase roleRates s phase in
      let '(ps, s2) := process_phases roleRates s1 rest in
      (p :: ps, s2)
  end.

(** The sum of the costs held by [breakdownMap]. *)
Definition bm_cost (m : BreakdownMap) : number :=
  JS.sum (map (fun kv => BreakdownEntry.cost (snd kv)) m).

(** A row of [calculatedBreakdown]. *)
Module BreakdownRow.
Record t : Type := mk {
  role : string;
  totalHours : number;
  subtotalCost : number;
  hourlyRate : number }.
End BreakdownRow.

(** [Object.values(breakdownMap).map(item => ...)].  The rows come in
    insertion order; JavaScript lists keys that are array indices first,
    which permutes the rows and nothing else. *)
Definition breakdownList (roleRates : RateStore) (m : BreakdownMap)
    : list BreakdownRow.t :=
  map (fun '(_, item) =>
         BreakdownRow.mk (BreakdownEntry.role item) (BreakdownEntry.hours item)
           (BreakdownEntry.cost item)
           (JS.or_else (ToNumber (roleRates !! sanitizeRole (BreakdownEntry.role item)))
                       JS.zero))
      m.

(** What the memo returns (the two chart series are projections of
    [phasesWithDynamicCost] and are left out). *)
Record Aggregates : Type := mkAggregates {
  calculatedBreakdown : list BreakdownRow.t;
  totalCalculatedCost : number;
  totalCalculatedHours : number;
  phasesWithDynamicCost : list PhaseEstimate.t }.

Definition aggregate (data : EstimationResult.t) (roleRates : RateStore)
    : Aggregates :=
  let '(processedPhases, s) :=
    process_phases roleRates
      {| phaseCost := JS.zero; breakdownMap := [];
         totalCost := JS.zero; totalHours := JS.zero |}
      (EstimationResult.phases data) in
  {| calculatedBreakdown := breakdownList roleRates (breakdownMap s);
     totalCalculatedCost := totalCost s;
     totalCalculatedHours := totalHours s;
     phasesWithDynamicCost := processedPhases |}.

(** ** The duration resolver and the roadmap bars *)

Definition endWeeks (data : EstimationResult.t) : list number :=
  map (fun r => Fin (RoadmapItem.endWeek r)) (EstimationResult.roadmap data).

(** [calculatedWeeks] *)
Definition calculatedWeeks (data : EstimationResult.t)
    (totalCalculatedHours : number) : number :=
  if (0 <? length (EstimationResult.roadmap data))%nat
  then JS.Math_max (endWeeks data)
  else JS.Math_ceil (totalCalculatedHours / JS.of_Z 24)%js.

(** [maxDuration] *)
Definition maxDuration (data : EstimationResult.t) (calculatedWeeks : number)
    : number :=
  JS.Math_max
    [ Fin (Range.max (EstimationResult.totalEstimatedDurationWeeks data));
      calculatedWeeks;
      if (0 <? length (EstimationResult.roadmap data))%nat
      then JS.Math_max (endWeeks data)
      else JS.zero ].

(** The placement of one roadmap bar. *)
Record Bar : Type := mkBar {
  safeStart : number;
  safeEnd : number;
  leftPercent : number;
  widthPercent : number }.

(** The callback of [data.roadmap.map((item, idx) => ...)]. *)
Definition placeBar (maxDuration : number) (item : RoadmapItem.t) : Bar :=
  let safeStart := JS.Math_max [JS.of_Z 1; Fin (RoadmapItem.startWeek item)] in
  let safeEnd := JS.Math_max [safeStart; Fin (RoadmapItem.endWeek item)] in
  {| safeStart := safeStart;
     safeEnd := safeEnd;
     leftPercent := (((safeStart - JS.of_Z 1) / maxDuration) * JS.of_Z 100)%js;
     widthPercent :=
       (((safeEnd - safeStart + JS.of_Z 1) / maxDuration) * JS.of_Z 100)%js |}.

(** The interval an item stands for under the clamping policy. *)
Definition clamp_item (item : RoadmapItem.t) : RoadmapItem.t :=
  let s := if bool_decide (RoadmapItem.startWeek item < Q2Qc 1)%Qc
           then Q2Qc 1 else RoadmapItem.startWeek item in
  let e := if bool_decide (RoadmapItem.endWeek item < s)%Qc
           then s else RoadmapItem.endWeek item in
  RoadmapItem.mk (RoadmapItem.phaseName item) s e (RoadmapItem.milestone item).

Definition with_roadmap (data : EstimationResult.t) (r : list RoadmapItem.t)
    : EstimationResult.t :=
  EstimationResult.mk
    (EstimationResult.projectName data) (EstimationResult.requesterName data)
    (EstimationResult.requestDate data) (EstimationResult.executiveSummary data)
    (EstimationResult.totalEstimatedCost data)
    (EstimationResult.totalEstimatedDurationWeeks data)
    (EstimationResult.totalEstimatedHours data)
    (EstimationResult.hourlyRates data) (EstimationResult.costBreakdown data)
    r (EstimationResult.recommendedTechStack data)
    (EstimationResult.phases data) (EstimationResult.risks data)
    (EstimationResult.teamComposition data).


(** ** Calendar dates *)

(** A [Date] at local midnight: year, month index from 0, day of the
    month from 1, in the proleptic Gregorian calendar. *)
Module Date.

Record t : Type := mk {
  getFullYear : Z;
  getMonth : Z;
  getDate : Z }.

(** Days since 1970-01-01 of the civil date [y]-[m]-[d], [m] from 1. *)
Definition days_from_civil (y m d : Z) : Z :=
  let y := if m <=? 2 then y - 1 else y in
  let era := y / 400 in
  let yoe := y - era * 400 in
  let mp := if 2 <? m then m - 3 else m + 9 in
  let doy := (153 * mp + 2) / 5 + d - 1 in
  let doe := yoe * 365 + yoe / 4 - yoe / 100 + doy in
  era * 146097 + doe - 719468.

Definition civil_from_days (z : Z) : t :=
  let z := z + 719468 in
  let era := z / 146097 in
  let doe := z - era * 146097 in
  let yoe := (doe - doe / 1460 + doe / 36524 - doe / 146096) / 365 in
  let y := yoe + era * 400 in
  let doy := doe - (365 * yoe + yoe / 4 - yoe / 100) in
  let mp := (5 * doy + 2) / 153 in
  let d := doy - (153 * mp + 2) / 5 + 1 in
  let m := if mp <? 10 then mp + 3 else mp - 9 in
  mk (if m <=? 2 then y + 1 else y) (m - 1) d.

(** [new Date(year, monthIndex, day)]: month and day out of range carry
    over into the neighbouring months and years. *)
Definition make (year monthIndex day : Z) : t :=
  let y := year + monthIndex / 12 in
  let m := monthIndex mod 12 in
  civil_from_days (days_from_civil y (m + 1) 1 + (day - 1)).

(** [d.setDate(day)] on a copy of [d]. *)
Definition setDate (d : t) (day : Z) : t :=
  make (getFullYear d) (getMonth d) day.

Definition month_name (m : Z) : string :=
  match m with
  | 0 => "enero" | 1 => "febrero" | 2 => "marzo" | 3 => "abril"
  | 4 => "mayo" | 5 => "junio" | 6 => "julio" | 7 => "agosto"
  | 8 => "septiembre" | 9 => "octubre" | 10 => "noviembre"
  | _ => "diciembre"
  end.

(** [d.toLocaleDateString('es-ES', { month: 'long', year: 'numeric' })] *)
Definition formatMonth (d : t) : string :=
  month_name (getMonth d) ++ " de " ++ pretty (getFullYear d).

End Date.

(** [projectStartDate]: the first day of the month after [now]. *)
Definition projectStartDate (now : Date.t) : Date.t :=
  Date.make (Date.getFullYear now) (Date.getMonth now + 1) 1.

(** ** The timeline grid *)

Record Group : Type := mkGroup {
  monthLabel : string;
  weeks : list Z }.

Record GridState : Type := mkGrid {
  groups : list Group;
  currentMonthLabel : string;
  currentWeekList : list Z }.

(** The start of project week [w]. *)
Definition weekStartDate (projectStartDate : Date.t) (w : Z) : Date.t :=
  Date.setDate projectStartDate (Date.getDate projectStartDate + (w - 1) * 7).

(** The body of the loop over the weeks. *)
Definition grid_step (projectStartDate : Date.t) (w : Z) (st : GridState)
    : GridState :=
  let monthLabel := Date.formatMonth (weekStartDate projectStartDate w) in
  if negb (bool_decide (monthLabel = currentMonthLabel st))
  then
    {| groups :=
         if (0 <? length (currentWeekList st))%nat
         then (groups st ++ [mkGroup (currentMonthLabel st) (currentWeekList st)])%list
         else groups st;
       currentMonthLabel := monthLabel;
       currentWeekList := [w] |}
  else
    {| groups := groups st;
       currentMonthLabel := currentMonthLabel st;
       currentWeekList := (currentWeekList st ++ [w])%list |}.

(** [for (let w = ...; w <= maxDuration; w++) { ... }], from the given
    [w]; [None] when [fuel] iterations do not reach the end. *)
Fixpoint grid_loop (maxDuration : number) (projectStartDate : Date.t)
    (fuel : nat) (w : Z) (st : GridState) : option GridState :=
  if JS.leb (JS.of_Z w) maxDuration
  then match fuel with
       | O => None
       | S fuel' =>
           grid_loop maxDuration projectStartDate fuel' (w + 1)
             (grid_step projectStartDate w st)
       end
  else Some st.

(** The number of iterations the loop can need. *)
Definition grid_fuel (maxDuration : number) : nat :=
  match maxDuration with
  | Fin q => Z.to_nat (Qfloor (this q))
  | _ => O
  end.

(** [timelineGroups] *)
Definition timelineGroups (maxDuration : number) (projectStartDate : Date.t)
    : option (list Group) :=
  match grid_loop maxDuration projectStartDate (grid_fuel maxDuration) 1
          (mkGrid [] EmptyString []) with
  | None => None
  | Some st =>
      Some (if (0 <? length (currentWeekList st))%nat
            then (groups st ++ [mkGroup (currentMonthLabel st) (currentWeekList st)])%list
            else groups st)
  end.

(** The weeks placed so far, in the order of their placement. *)
Definition grid_flat (st : GridState) : list Z :=
  (concat (map weeks (groups st)) ++ currentWeekList st)%list.

(** A group is not empty and carries the month label of each of its
    weeks. *)
Definition group_ok (projectStartDate : Date.t) (g : Group) : Prop :=
  weeks g <> [] /\
  Forall (fun w => monthLabel g
                   = Date.formatMonth (weekStartDate projectStartDate w))
         (weeks g).

Definition grid_ok (projectStartDate : Date.t) (st : GridState) : Prop :=
  Forall (group_ok projectStartDate) (groups st) /\
  Forall (fun w => currentMonthLabel st
                   = Date.formatMonth (weekStartDate projectStartDate w))
         (currentWeekList st).

(** ** The analyse transition of the application *)

Module AppState.
Inductive t : Type := input | analyzing | result | error.
End AppState.

Inductive FixedRole : Type :=
| ProductOwner | BackendDeveloper | FrontendDeveloper | QAEngineer | UIUXDesigner.

Module ProjectMetadata.
Record t : Type := mk {
  projectName : string;
  requesterName : string;
  date : string;
  userRates : FixedRole -> Qc }.
End ProjectMetadata.

(** What the text-generation service does with a request: the call
    rejects with a message, or resolves to a response whose [text] may
    be missing. *)
Inductive ServiceOutcome : Type :=
| Rejects (message : string)
| Resolves (text : option string).

(** Truthiness of an optional string: [undefined] and [''] are falsy. *)
Definition string_truthy (s : option string) : bool :=
  match s with
  | None => false
  | Some s => negb (bool_decide (s = EmptyString))
  end.

(** The state of [App]. *)
Record App : Type := mkApp {
  appState : AppState.t;
  result : option EstimationResult.t;
  errorMsg : option string }.

Section Analyze.

(** [JSON.parse(text) as EstimationResult]; [None] when it throws. *)
Variable JSON_parse : string -> option EstimationResult.t.

(** [{ ...data, requesterName: metadata.requesterName, requestDate: metadata.date }] *)
Definition with_requester (data : EstimationResult.t) (metadata : ProjectMetadata.t)
    : EstimationResult.t :=
  EstimationResult.mk
    (EstimationResult.projectName data) (ProjectMetadata.requesterName metadata)
    (ProjectMetadata.date metadata) (EstimationResult.executiveSummary data)
    (EstimationResult.totalEstimatedCost data)
    (EstimationResult.totalEstimatedDurationWeeks data)
    (EstimationResult.totalEstimatedHours data)
    (EstimationResult.hourlyRates data) (EstimationResult.costBreakdown data)
    (EstimationResult.roadmap data) (EstimationResult.recommendedTechStack data)
    (EstimationResult.phases data) (EstimationResult.risks data)
    (EstimationResult.teamComposition data).

(** [analyzePRD]: [inl message] is [throw new Error(message)] (or the
    rejection of the service call), [inr data] the resolved value. *)
Definition analyzePRD (apiKey : option string) (service : ServiceOutcome)
    (metadata : ProjectMetadata.t) : string + EstimationResult.t :=
  if negb (string_truthy apiKey)
  then inl "API Key no configurada. Por favor verifica tu entorno."
  else
    match service with
    | Rejects message => inl message
    | Resolves text =>
        if negb (string_truthy text)
        then inl "No se pudo generar la estimación. Intenta de nuevo."
        else
          match JSON_parse (default EmptyString text) with
          | Some data => inr (with_requester data metadata)
          | None => inl "Error al procesar la respuesta de la IA."
          end
    end.

(** [handleAnalyze], from the click to the end of the awaited call. *)
Definition handleAnalyze (app : App) (apiKey : option string)
    (service : ServiceOutcome) (metadata : ProjectMetadata.t) : App :=
  let started := mkApp AppState.analyzing (result app) None in
  match analyzePRD apiKey service metadata with
  | inr data => mkApp AppState.result (Some data) (errorMsg started)
  | inl message =>
      mkApp AppState.error (result started)
        (Some (if bool_decide (message = EmptyString)
               then "Ocurrió un error inesperado al analizar el PRD."
               else message))
  end.

End Analyze.


(** ** A small document *)

Definition qc (z : Z) : Qc := Q2Qc (inject_Z z).

Definition no_range : Range.t := Range.mk (qc 0) (qc 0).

(** A document with the given lists and nothing else. *)
Definition document (rates : list RoleRate.t) (breakdown : list CostBreakdownItem.t)
    (roadmap : list RoadmapItem.t) (phases : list PhaseEstimate.t)
    : EstimationResult.t :=
  EstimationResult.mk "" "" "" "" (CostRange.mk (qc 0) (qc 0) "USD")
    no_range no_range rates breakdown roadmap [] phases [] [].

Definition qa_task : PhaseTask.t :=
  PhaseTask.mk "Pruebas" (qc 10) (qc 400) "QA Engineer" (qc 40).

Definition qa_phase : PhaseEstimate.t :=
  PhaseEstimate.mk "Calidad" "" (qc 10) (Fin (qc 400)) LOW "QA Engineer" [qa_task].

Definition qa_document : EstimationResult.t := document [] [] [] [qa_phase].


(** A document whose cost breakdown and whose task disagree on a role,
    the breakdown giving it the rate 0. *)
Definition zero_rate_document : EstimationResult.t :=
  document [] [CostBreakdownItem.mk "QA Engineer" (qc 10) (qc 0) (qc 0) "USD"]
           [] [qa_phase].


(** A roadmap with one degenerate interval, from week 5 to week 2. *)
Definition backwards_document : EstimationResult.t :=
  document [] [] [RoadmapItem.mk "Backend" (qc 5) (qc 2) "API"] [].

Definition scenario_roadmap : list RoadmapItem.t :=
  [ RoadmapItem.mk "Design" (qc 1) (qc 2) "";
    RoadmapItem.mk "Backend" (qc 3) (qc 6) "";
    RoadmapItem.mk "Frontend" (qc 3) (qc 6) "";
    RoadmapItem.mk "QA" (qc 7) (qc 8) "" ].

(** ** Views of the aggregation used to state its properties *)

(** The store key of a task. *)
Definition task_key (task : PhaseTask.t) : string :=
  sanitizeRole (PhaseTask.assignedRole task).

(** The tasks of a role key, in document order. *)
Definition tasks_of (key : string) (ts : list PhaseTask.t) : list PhaseTask.t :=
  filter (fun task => task_key task = key) ts.


(** The key of a row of the breakdown. *)
Definition row_key (row : BreakdownRow.t) : string :=
  sanitizeRole (BreakdownRow.role row).

(** Every entry of [breakdownMap] sits under the key of its role label,
    and no key occurs twice. *)
Definition bm_wf (m : BreakdownMap) : Prop :=
  NoDup (map fst m) /\
  Forall (fun kv => sanitizeRole (BreakdownEntry.role (snd kv)) = fst kv) m.

(** Two states of the loops that differ at most in [phaseCost]. *)
Definition same_totals (s s' : Totals) : Prop :=
  breakdownMap s = breakdownMap s' /\
  totalCost s = totalCost s' /\
  totalHours s = totalHours s'.

(** Two tasks that differ at most in their name and in the cost the
    document gives them. *)
Definition same_effort (t t' : PhaseTask.t) : Prop :=
  PhaseTask.hours t = PhaseTask.hours t' /\
  PhaseTask.assignedRole t = PhaseTask.assignedRole t' /\
  PhaseTask.hourlyRate t = PhaseTask.hourlyRate t'.

(** The value of the rate input of a row:
    [roleRates[sanitizeRole(item.role)] !== undefined
       ? roleRates[sanitizeRole(item.role)] : item.hourlyRate] *)
Definition rate_input_value (roleRates : RateStore) (item : BreakdownRow.t)
    : RateValue :=
  match roleRates !! sanitizeRole (BreakdownRow.role item) with
  | Some v => v
  | None => RNum (BreakdownRow.hourlyRate item)
  end.

(** The values of the four variables before the first phase. *)
Definition start_totals : Totals :=
  {| phaseCost := JS.zero; breakdownMap := [];
     totalCost := JS.zero; totalHours := JS.zero |}.

(** The entry of a key after the tasks [ts], from the entry [e0] it had
    before, if any. *)
Definition entry_after (roleRates : RateStore) (e0 : option BreakdownEntry.t)
    (ts : list PhaseTask.t) : option BreakdownEntry.t :=
  match e0, ts with
  | Some e, _ =>
      Some (BreakdownEntry.mk
              (fold_left JS.add (map (fun t => Fin (PhaseTask.hours t)) ts)
                         (BreakdownEntry.hours e))
              (fold_left JS.add (map (taskCost roleRates) ts) (BreakdownEntry.cost e))
              (BreakdownEntry.role e))
  | None, [] => None
  | None, t :: _ =>
      Some (BreakdownEntry.mk
              (JS.sum (map (fun t => Fin (PhaseTask.hours t)) ts))
              (JS.sum (map (taskCost roleRates) ts))
              (PhaseTask.assignedRole t))
  end.

(** Two phase lists whose tasks agree in hours, role and hourly rate,
    whatever the other fields of the phases and of the tasks are. *)
Definition same_work (phases phases' : list PhaseEstimate.t) : Prop :=
  Forall2 (fun p p' => Forall2 same_effort (PhaseEstimate.tasks p)
                                           (PhaseEstimate.tasks p'))
          phases phases'.

(** The document of [qa_document] with other costs, names and hours
    given by the service for the phase and its task. *)
Definition qa_document_recosted : EstimationResult.t :=
  document [] [] []
    [PhaseEstimate.mk "QA" "otra" (qc 99) (Fin (qc 1)) HIGH "Product Owner"
       [PhaseTask.mk "Test" (qc 10) (qc 7) "QA Engineer" (qc 40)]].

(** ** Views of the timeline grid *)

(** The groups that the end of [timelineGroups] makes of a state. *)
Definition grid_result (st : GridState) : list Group :=
  if (0 <? length (currentWeekList st))%nat
  then (groups st ++ [mkGroup (currentMonthLabel st) (currentWeekList st)])%list
  else groups st.

(** No two neighbours of a list are equal. *)
Fixpoint distinct_neighbours (ls : list string) : Prop :=
  match ls with
  | a :: (b :: _) as rest => a <> b /\ distinct_neighbours rest
  | _ => True
  end.

(** The state of the loop is one that yields maximal runs: closed
    groups exist only once a week has been placed, and the labels of the
    groups it would return differ from neighbour to neighbour. *)
Definition grid_runs (st : GridState) : Prop :=
  (currentWeekList st = [] -> groups st = []) /\
  distinct_neighbours (map monthLabel (grid_result st)).


(** ** The input form *)

(** [s.trimStart()] *)
Fixpoint trimStart (s : string) : string :=
  match s with
  | EmptyString => EmptyString
  | String c r => if is_space c then trimStart r else s
  end.



(** [10 ** e] for a whole [e]. *)
Definition pow10 (e : Z) : Qc := Q2Qc (Qpower (inject_Z 10) e).

(** The value of the exponent part that [parseFloat] reads at the head
    of [r]: [e] or [E], an optional sign and at least one digit; 0 when
    there is no such part. *)
Definition exponent_value (r : string) : Z :=
  match r with
  | String c r1 =>
      if bool_decide (c = "e"%char) || bool_decide (c = "E"%char) then
        let '(negative, r2) :=
          match r1 with
          | String s x =>
              if bool_decide (s = "+"%char) then (false, x)
              else if bool_decide (s = "-"%char) then (true, x)
              else (false, r1)
          | EmptyString => (false, r1)
          end in
        let '(d, _) := span_digits r2 in
        if bool_decide (d = EmptyString) then 0
        else if negative then - digits_value 0 d else digits_value 0 d
      else 0
  | EmptyString => 0
  end.

(** The number of the longest prefix of [u] that is an unsigned decimal
    literal: [Infinity], or digits with an optional fraction and an
    optional exponent; NaN when no prefix is one. *)
Definition parse_unsigned (u : string) : number :=
  if String.prefix "Infinity" u then PInf
  else
    let '(a, r1) := span_digits u in
    match r1 with
    | String c r2 =>
        if is_dot c then
          let '(b, r3) := span_digits r2 in
          if bool_decide (a = EmptyString) && bool_decide (b = EmptyString)
          then NaN
          else Fin (decimal_value a b * pow10 (exponent_value r3))%Qc
        else if bool_decide (a = EmptyString) then NaN
             else Fin (decimal_value a EmptyString * pow10 (exponent_value r1))%Qc
    | EmptyString =>
        if bool_decide (a = EmptyString) then NaN
        else Fin (decimal_value a EmptyString)
    end.

(** [parseFloat(s)]: leading white space is skipped, then an optional
    sign, then the longest numeric prefix. *)
Definition parseFloat (s : string) : number :=
  match trimStart s with
  | String c u =>
      if bool_decide (c = "+"%char) then parse_unsigned u
      else if bool_decide (c = "-"%char) then JS.neg (parse_unsigned u)
      else parse_unsigned (String c u)
  | EmptyString => NaN
  end.

(** [isNaN(n)] on a number. *)
Definition isNaN (n : number) : bool :=
  match n with
  | NaN => true
  | _ => false
  end.

Module InputSection.

(** The state of the form. *)
Record t : Type := mk {
  text : string;
  error : string;
  projectName : string;
  requesterName : string;
  date : string;
  rates : FixedRole -> number }.





#[global] Instance FixedRole_eq_dec : EqDecision FixedRole.
Proof. solve_decision. Defined.

(** [handleRateChange(role, value)] of the form. *)
Definition handleRateChange (f : t) (role : FixedRole) (value : string) : t :=
  let numValue := parseFloat value in
  mk (text f) (error f) (projectName f) (requesterName f) (date f)
     (fun r => if bool_decide (r = role)
               then (if isNaN numValue then JS.zero else numValue)
               else rates f r).







End InputSection.

(** ** What the application shows and which handlers it offers *)



(** [handleAnalyze] up to its [await]: the two setters before the call. *)
Definition analyze_start (app : App) : App :=
  mkApp AppState.analyzing (result app) None.

(** [handleAnalyze] after its [await]: the setters of the [try] branch
    when the call resolved, those of the [catch] branch when it threw. *)
Definition analyze_settle (app : App) (outcome : string + EstimationResult.t)
    : App :=
  match outcome with
  | inr data => mkApp AppState.result (Some data) (errorMsg app)
  | inl message =>
      mkApp AppState.error (result app)
        (Some (if bool_decide (message = EmptyString)
               then "Ocurrió un error inesperado al analizar el PRD."
               else message))
  end.





(** [App] on mount. *)
Definition initial_app : App := mkApp AppState.input None None.



(** ** The bar chart of the phases *)

(** [name.length > 20 ? name.substring(0, 20) + '...' : name] *)
Definition shortName (name : string) : string :=
  if (20 <? String.length name)%nat
  then String.substring 0 20 name ++ "..."
  else name.

(** An entry of [timelineData]. *)
Module TimelineEntry.
Record t : Type := mk {
  name : string;
  shortName : string;
  hours : Qc }.
End TimelineEntry.


(** ** The rate a role starts with *)




(** * Properties *)

(** ** Arithmetic of numbers *)

Lemma add_comm (a b : number) : (a + b = b + a)%js.
Proof.
  destruct a, b; simpl; try reflexivity.
  f_equal. ring.
Qed.

Lemma add_assoc (a b c : number) : (a + (b + c) = a + b + c)%js.
Proof.
  destruct a, b, c; simpl; try reflexivity.
  f_equal. ring.
Qed.

Lemma add_zero_l (a : number) : (JS.zero + a = a)%js.
Proof.
  destruct a; simpl; try reflexivity.
  f_equal. ring.
Qed.

Lemma add_zero_r (a : number) : (a + JS.zero = a)%js.
Proof. rewrite add_comm. apply add_zero_l. Qed.

Lemma fold_add_shift (xs : list number) (a b : number) :
  fold_left JS.add xs (a + b)%js = (a + fold_left JS.add xs b)%js.
Proof.
  revert b. induction xs as [|x xs IH]; intros b; simpl.
  - reflexivity.
  - rewrite <- add_assoc. apply IH.
Qed.

Lemma sum_cons (x : number) (xs : list number) :
  JS.sum (x :: xs) = (x + JS.sum xs)%js.
Proof.
  unfold JS.sum.
  change (fold_left JS.add (x :: xs) JS.zero)
    with (fold_left JS.add xs (JS.zero + x)%js).
  rewrite add_comm. apply fold_add_shift.
Qed.

Lemma sum_app (xs ys : list number) :
  JS.sum (xs ++ ys) = (JS.sum xs + JS.sum ys)%js.
Proof.
  induction xs as [|x xs IH].
  - change (JS.sum []) with JS.zero. symmetry. apply add_zero_l.
  - change ((x :: xs) ++ ys)%list with (x :: (xs ++ ys))%list.
    rewrite !sum_cons, IH. apply add_assoc.
Qed.

(** ** The role key *)

(** Facts about one character are settled on the 256 characters. *)
Ltac by_characters c :=
  destruct c as [[] [] [] [] [] [] [] []]; try discriminate; reflexivity.

Lemma lower_char_idem (c : ascii) : lower_char (lower_char c) = lower_char c.
Proof. by_characters c. Qed.

Lemma lower_char_space (c : ascii) : is_space (lower_char c) = is_space c.
Proof. by_characters c. Qed.


Lemma space_not_upper (c : ascii) : is_space c = true -> is_upper c = false.
Proof. by_characters c. Qed.

Lemma lower_char_fixed (c : ascii) : is_upper c = false -> lower_char c = c.
Proof. unfold lower_char. intros ->. reflexivity. Qed.

Lemma lower_upper_char (c : ascii) : lower_char (upper_char c) = lower_char c.
Proof. by_characters c. Qed.

Lemma space_same_lower (c d : ascii) :
  lower_char c = lower_char d -> is_space c = is_space d.
Proof.
  intros H. rewrite <- (lower_char_space c), <- (lower_char_space d), H.
  reflexivity.
Qed.

Lemma toLowerCase_app (s t : string) :
  toLowerCase (s ++ t) = toLowerCase s ++ toLowerCase t.
Proof. induction s as [|c s IH]; simpl; [reflexivity | now rewrite IH]. Qed.





(** What a white-space run becomes, whatever its length. *)
Lemma replace_spaces_run (in_run : bool) (r b : string) :
  white_run r ->
  replace_spaces in_run (r ++ b) =
  (if in_run then EmptyString else "_") ++ replace_spaces true b.
Proof.
  intros [Hne Hall]. revert in_run.
  induction r as [|c r IH]; intros in_run; [congruence|].
  simpl in Hall. apply andb_prop in Hall as [Hc Hr]. simpl. rewrite Hc.
  destruct r as [|c' r].
  - destruct in_run; reflexivity.
  - assert (Hne' : String c' r <> EmptyString) by discriminate.
    specialize (IH Hne' Hr true). simpl in IH. 
    destruct in_run; simpl; rewrite IH; reflexivity.
Qed.

(** Scanning is a congruence for what follows a common prefix. *)
Lemma scan_prefix (a x y : string) :
  (forall in_run, toLowerCase (replace_spaces in_run x)
                  = toLowerCase (replace_spaces in_run y)) ->
  forall in_run, toLowerCase (replace_spaces in_run (a ++ x))
                 = toLowerCase (replace_spaces in_run (a ++ y)).
Proof.
  intros H. induction a as [|c a IH]; intros in_run; simpl.
  - apply H.
  - destruct (is_space c); [destruct in_run|]; simpl; now rewrite IH.
Qed.

Lemma same_label_key (s t : string) :
  same_label s t -> sanitizeRole s = sanitizeRole t.
Proof.
  unfold sanitizeRole. generalize false.
  intros in_run H. revert in_run.
  induction H as [s | s t _ IH | s t u _ IH1 _ IH2 | a c d b Hcd | a r1 r2 b H1 H2];
    intros in_run.
  - reflexivity.
  - symmetry. apply IH.
  - rewrite IH1. apply IH2.
  - apply scan_prefix. clear in_run. intros in_run. simpl.
    rewrite (space_same_lower _ _ Hcd).
    destruct (is_space d) eqn:Hd.
    + assert (c = d) as ->; [|reflexivity].
      rewrite <- (lower_char_fixed c), <- (lower_char_fixed d), Hcd; trivial.
      * now apply space_not_upper.
      * apply space_not_upper. now rewrite (space_same_lower _ _ Hcd).
    + simpl. now rewrite Hcd.
  - apply scan_prefix. clear in_run. intros in_run.
    rewrite (replace_spaces_run _ _ _ H1), (replace_spaces_run _ _ _ H2).
    reflexivity.
Qed.

Lemma same_label_cons (c : ascii) (s t : string) :
  same_label s t -> same_label (String c s) (String c t).
Proof.
  induction 1 as [s | s t _ IH | s t u _ IH1 _ IH2 | a x y b Hxy | a r1 r2 b H1 H2].
  - apply same_refl.
  - now apply same_sym.
  - now apply same_trans with (String c t).
  - now apply (same_case (String c a) x y b).
  - now apply (same_space (String c a) r1 r2 b).
Qed.

(** A label and the same label in capitals are the same label. *)
Lemma same_label_upper (s : string) : same_label s (toUpperCase s).
Proof.
  induction s as [|c s IH]; [apply same_refl|].
  apply same_trans with (String c (toUpperCase s)).
  - now apply same_label_cons.
  - apply (same_case EmptyString c (upper_char c) (toUpperCase s)).
    symmetry. apply lower_upper_char.
Qed.







(** ** The rate pattern *)

Lemma span_digits_spec (s : string) :
  s = fst (span_digits s) ++ snd (span_digits s) /\
  all_digits (fst (span_digits s)) = true /\
  match snd (span_digits s) with
  | String c _ => is_digit c = false
  | EmptyString => True
  end.
Proof.
  induction s as [|c s (IH1 & IH2 & IH3)]; simpl.
  - auto.
  - destruct (is_digit c) eqn:Hc.
    + destruct (span_digits s) as [d rest]; simpl in *.
      rewrite Hc, IH2. split; [rewrite IH1 at 1; reflexivity|].
      split; [reflexivity | exact IH3].
    + simpl. rewrite Hc. auto.
Qed.

Lemma span_digits_app (a r : string) :
  all_digits a = true ->
  span_digits (a ++ r) = (a ++ fst (span_digits r), snd (span_digits r)).
Proof.
  induction a as [|c a IH]; intros H.
  - change (span_digits r = (fst (span_digits r), snd (span_digits r))).
    now destruct (span_digits r).
  - simpl in H. apply andb_prop in H as [Hc Ha].
    change (String c a ++ r) with (String c (a ++ r)).
    cbn [span_digits]. rewrite Hc, (IH Ha). reflexivity.
Qed.

Lemma span_digits_all (a : string) :
  all_digits a = true -> span_digits a = (a, EmptyString).
Proof.
  induction a as [|c a IH]; simpl; intros H; [reflexivity|].
  apply andb_prop in H as [-> Ha]. now rewrite (IH Ha).
Qed.

Lemma star_digits_all (r : regex) (s : string) :
  matches r s -> r = Star (Class is_digit) -> all_digits s = true.
Proof.
  induction 1 as [| | | | | r | r s1 s2 H1 _ H2 IH2]; intros E;
    try discriminate; [reflexivity|].
  injection E as ->. inversion H1 as [| p c Hc | | | | |]; subst.
  change (all_digits (String c s2) = true). simpl.
  now rewrite Hc, (IH2 eq_refl).
Qed.

Lemma all_digits_star (s : string) :
  all_digits s = true -> matches (Star (Class is_digit)) s.
Proof.
  induction s as [|c s IH]; simpl; intros H; [constructor|].
  apply andb_prop in H as [Hc Hs].
  apply (m_star_cons _ (String c EmptyString) s); [now constructor | auto].
Qed.

(** The language of the rate pattern: digits, at most one dot, digits. *)
Lemma rate_regex_language (s : string) :
  matches rate_regex s <->
  exists a b : string,
    all_digits a = true /\ all_digits b = true /\
    (s = a ++ b \/ s = a ++ String "." b).
Proof.
  split.
  - intros H. inversion H as [| | r1 r2 a s2 Ha H2 | | | |]; subst.
    inversion H2 as [| | r1 r2 o b Ho Hb | | | |]; subst.
    exists a, b.
    split; [eapply star_digits_all; eauto|].
    split; [eapply star_digits_all; eauto|].
    inversion Ho as [| | | ? ? ? Hd | ? ? ? He | |]; subst.
    + inversion Hd as [| p c Hc | | | | |]; subst.
      unfold is_dot in Hc. apply bool_decide_eq_true in Hc. subst. now right.
    + inversion He; subst. now left.
  - intros (a & b & Ha & Hb & [-> | ->]).
    + apply m_cat; [now apply all_digits_star|].
      apply (m_cat _ _ EmptyString b); [|now apply all_digits_star].
      apply m_alt_r. constructor.
    + apply m_cat; [now apply all_digits_star|].
      apply (m_cat _ _ (String "." EmptyString) b); [|now apply all_digits_star].
      apply m_alt_l. now constructor.
Qed.

Lemma all_digits_app (a b : string) :
  all_digits (a ++ b) = all_digits a && all_digits b.
Proof. induction a as [|c a IH]; simpl; [reflexivity|]. now rewrite IH, andb_assoc. Qed.

Lemma string_app_nil_r (s : string) : s ++ EmptyString = s.
Proof.
  induction s as [|c s IH]; [reflexivity|].
  change (String c (s ++ EmptyString) = String c s). now rewrite IH.
Qed.

Lemma rate_pattern_test_spec (s : string) :
  rate_pattern_test s = true <-> matches rate_regex s.
Proof.
  rewrite rate_regex_language. unfold rate_pattern_test. split.
  - destruct (span_digits_spec s) as (E1 & D1 & _).
    destruct (span_digits s) as [a r1]; simpl in E1, D1.
    destruct r1 as [|c r]; [|destruct (is_dot c) eqn:Hc].
    + intros _. exists a, EmptyString. auto.
    + destruct (span_digits_spec r) as (E2 & D2 & _).
      destruct (span_digits r) as [b r3]; simpl in E2, D2.
      intros H. apply bool_decide_eq_true in H. subst r3.
      rewrite string_app_nil_r in E2. subst r.
      unfold is_dot in Hc. apply bool_decide_eq_true in Hc. subst c.
      exists a, b. auto.
    + destruct (span_digits_spec (String c r)) as (E2 & D2 & _).
      destruct (span_digits (String c r)) as [b r3]; simpl in E2, D2.
      intros H. apply bool_decide_eq_true in H. subst r3.
      rewrite string_app_nil_r in E2. rewrite E2 in E1.
      exists a, b. auto.
  - intros (a & b & Ha & Hb & [-> | ->]).
    + rewrite (span_digits_all (a ++ b)) by (now rewrite all_digits_app, Ha, Hb).
      reflexivity.
    + rewrite (span_digits_app _ _ Ha). simpl.
      rewrite (span_digits_all _ Hb). reflexivity.
Qed.

Lemma digits_value_nonneg (s : string) (acc : Z) :
  all_digits s = true -> 0 <= acc -> 0 <= digits_value acc s.
Proof.
  revert acc. induction s as [|c s IH]; intros acc H Ha; simpl in *; [exact Ha|].
  apply andb_prop in H as [Hc Hs]. apply IH; [exact Hs|].
  unfold is_digit in Hc. apply andb_prop in Hc as [Hc _].
  apply Nat.leb_le in Hc. lia.
Qed.

Lemma decimal_value_nonneg (a b : string) :
  all_digits a = true -> all_digits b = true -> (0 <= decimal_value a b)%Qc.
Proof.
  intros Ha Hb. unfold decimal_value, Qcle.
  change (0 <= Qred (digits_value 0 (a ++ b)
                     # Z.to_pos (10 ^ Z.of_nat (String.length b))))%Q.
  rewrite Qred_correct. unfold Qle. simpl. rewrite Z.mul_1_r.
  apply digits_value_nonneg; [|lia]. now rewrite all_digits_app, Ha, Hb.
Qed.

(** What the strings of the rate pattern convert to: a number that is
    not negative, except for the lone dot, which is not a number. *)
Lemma Number_of_accepted (s : string) :
  accepted_rate s ->
  (s = "." /\ Number_of_string s = NaN) \/
  (exists q, Number_of_string s = Fin q /\ (0 <= q)%Qc).
Proof.
  intros [-> | H].
  - right. exists (Q2Qc 0). split; [reflexivity | apply Qcle_refl].
  - apply rate_regex_language in H as (a & b & Ha & Hb & [-> | ->]).
    + right. unfold Number_of_string.
      destruct (bool_decide (a ++ b = EmptyString));
        [exists (Q2Qc 0); split; [reflexivity | apply Qcle_refl]|].
      rewrite (span_digits_all (a ++ b)) by (now rewrite all_digits_app, Ha, Hb).
      eexists. split; [reflexivity|].
      apply decimal_value_nonneg; [now rewrite all_digits_app, Ha, Hb | reflexivity].
    + unfold Number_of_string.
      rewrite bool_decide_eq_false_2 by (destruct a; discriminate).
      rewrite (span_digits_app _ _ Ha).
      change (span_digits (String "." b)) with (EmptyString, String "."%char b).
      cbn [fst snd]. rewrite string_app_nil_r.
      change (is_dot ".") with true. cbv iota.
      rewrite (span_digits_all _ Hb).
      rewrite bool_decide_eq_true_2 by reflexivity. cbn [andb].
      destruct a as [|c a]; [destruct b as [|c b]|].
      * left. split; reflexivity.
      * right. eexists. split; [reflexivity | now apply decimal_value_nonneg].
      * right. eexists. split; [reflexivity | now apply decimal_value_nonneg].
Qed.

(** ** The rate store under edits *)

Lemma accepted_rate_test (s : string) :
  bool_decide (s = EmptyString) || rate_pattern_test s = true <-> accepted_rate s.
Proof.
  unfold accepted_rate. rewrite orb_true_iff, bool_decide_eq_true.
  now rewrite rate_pattern_test_spec.
Qed.

Lemma handleRateChange_accepted (roleRates : RateStore) (role newRate : string) :
  accepted_rate newRate ->
  handleRateChange roleRates role newRate
  = <[sanitizeRole role := RStr newRate]> roleRates.
Proof.
  intros H. apply accepted_rate_test in H. unfold handleRateChange.
  now rewrite H.
Qed.

Lemma handleRateChange_rejected (roleRates : RateStore) (role newRate : string) :
  ~ accepted_rate newRate ->
  handleRateChange roleRates role newRate = roleRates.
Proof.
  intros H. unfold handleRateChange.
  destruct (bool_decide (newRate = EmptyString) || rate_pattern_test newRate) eqn:E;
    [|reflexivity].
  exfalso. apply H. now apply accepted_rate_test.
Qed.

Lemma handleRateChange_wf (roleRates : RateStore) (role newRate : string) :
  store_wf roleRates -> store_wf (handleRateChange roleRates role newRate).
Proof.
  intros Hwf. unfold handleRateChange.
  destruct (bool_decide (newRate = EmptyString) || rate_pattern_test newRate) eqn:E;
    [|exact Hwf].
  intros key s. rewrite lookup_insert.
  destruct (decide (sanitizeRole role = key)) as [_|_].
  - intros Heq. injection Heq as Heq. subst s. now apply accepted_rate_test.
  - apply Hwf.
Qed.

Lemma initialStore_wf (data : EstimationResult.t) : store_wf (initialStore data).
Proof.
  intros key s. unfold initialStore. rewrite lookup_fmap.
  destruct (initialRates data !! key); discriminate.
Qed.

Lemma store_after_wf (data : EstimationResult.t) (es : list store_event) :
  store_wf (store_after data es).
Proof.
  unfold store_after.
  assert (H : store_wf (∅ : RateStore)) by (intros key s; now rewrite lookup_empty).
  revert H. generalize (∅ : RateStore).
  induction es as [|e es IH]; intros m Hm; simpl; [exact Hm|].
  apply IH. destruct e; simpl.
  - apply initialStore_wf.
  - now apply handleRateChange_wf.
Qed.

(** C3: an edit either stores its input under the normalised key, when
    the input is empty or matches the rate pattern, or leaves the store
    as it is; so no store that the dashboard can reach holds a string
    outside that set, and the aggregation, a total function, has a
    result on the edited store. *)
Theorem handleRateChange_boundary
    (roleRates : RateStore) (role newRate : string) :
  (accepted_rate newRate ->
   handleRateChange roleRates role newRate
   = <[sanitizeRole role := RStr newRate]> roleRates) /\
  (~ accepted_rate newRate ->
   handleRateChange roleRates role newRate = roleRates) /\
  (store_wf roleRates -> store_wf (handleRateChange roleRates role newRate)) /\
  (forall data es, store_wf (store_after data es)) /\
  (forall data, exists a,
      aggregate data (handleRateChange roleRates role newRate) = a).
Proof.
  split; [apply handleRateChange_accepted|].
  split; [apply handleRateChange_rejected|].
  split; [apply handleRateChange_wf|].
  split; [apply store_after_wf|].
  intros data. eexists. reflexivity.
Qed.

Lemma handleRateChange_boundary_witness :
  accepted_rate "55.5" /\
  handleRateChange ∅ "QA Engineer" "55.5"
  = <[sanitizeRole "QA Engineer" := RStr "55.5"]> ∅.
Proof.
  assert (H : accepted_rate "55.5")
    by (right; apply rate_pattern_test_spec; reflexivity).
  split; [exact H|].
  exact (proj1 (handleRateChange_boundary ∅ "QA Engineer" "55.5") H).
Defined.

(** ** Rates and costs of tasks *)

Lemma select_rate_override (v : RateValue) (task : PhaseTask.t) :
  v <> RStr EmptyString -> select_rate (Some v) task = ToNumber (Some v).
Proof.
  intros H. unfold select_rate. simpl.
  destruct v as [n|s]; simpl; [reflexivity|].
  case_bool_decide; [congruence | reflexivity].
Qed.



Lemma process_task_costs (roleRates : RateStore) (s : Totals) (task : PhaseTask.t) :
  phaseCost (process_task roleRates s task)
  = (phaseCost s + taskCost roleRates task)%js /\
  totalCost (process_task roleRates s task)
  = (totalCost s + taskCost roleRates task)%js.
Proof. split; reflexivity. Qed.




(** ** The per-role breakdown *)

Lemma breakdownList_rate (roleRates : RateStore) (m : BreakdownMap)
    (row : BreakdownRow.t) :
  row ∈ breakdownList roleRates m ->
  BreakdownRow.hourlyRate row
  = JS.or_else (ToNumber (roleRates !! sanitizeRole (BreakdownRow.role row))) JS.zero.
Proof.
  unfold breakdownList. rewrite list_elem_of_fmap.
  intros ([k item] & -> & _). reflexivity.
Qed.

Lemma aggregate_breakdown (data : EstimationResult.t) (roleRates : RateStore) :
  exists m, calculatedBreakdown (aggregate data roleRates) = breakdownList roleRates m.
Proof.
  unfold aggregate. destruct (process_phases _ _ _) as [ps s]. simpl. eauto.
Qed.

(** C10: a row of the per-role breakdown reports the conversion to a
    number of the store entry of its role when that is a number other
    than 0, and 0 otherwise; with no entry in the store it reports 0,
    while the costs of the tasks were computed from their own rates, so
    that the subtotal of a row can differ from its hours times its
    reported rate. *)
Theorem breakdown_reported_rate :
  (forall data roleRates row,
      row ∈ calculatedBreakdown (aggregate data roleRates) ->
      let n := ToNumber (roleRates !! sanitizeRole (BreakdownRow.role row)) in
      (n <> NaN -> n <> JS.zero -> BreakdownRow.hourlyRate row = n) /\
      (n = NaN \/ n = JS.zero -> BreakdownRow.hourlyRate row = JS.zero) /\
      (roleRates !! sanitizeRole (BreakdownRow.role row) = None ->
       BreakdownRow.hourlyRate row = JS.zero)) /\
  (exists row,
      row ∈ calculatedBreakdown (aggregate qa_document ∅) /\
      (∅ : RateStore) !! sanitizeRole (BreakdownRow.role row) = None /\
      BreakdownRow.hourlyRate row = JS.zero /\
      BreakdownRow.subtotalCost row = Fin (qc 400) /\
      BreakdownRow.subtotalCost row
      <> (BreakdownRow.totalHours row * BreakdownRow.hourlyRate row)%js).
Proof.
  split.
  - intros data roleRates row Hrow n.
    destruct (aggregate_breakdown data roleRates) as [m Hm].
    rewrite Hm in Hrow. apply breakdownList_rate in Hrow. fold n in Hrow.
    rewrite Hrow. clear Hrow Hm.
    assert (H3 : roleRates !! sanitizeRole (BreakdownRow.role row) = None ->
                 JS.or_else n JS.zero = JS.zero)
      by (intros Hnone; subst n; now rewrite Hnone).
    clearbody n. unfold JS.or_else.
    split; [|split; [|exact H3]].
    + intros H1 H2.
      destruct n as [| | |q]; [congruence | reflexivity | reflexivity |]; simpl.
      destruct (bool_decide (q = Q2Qc 0)) eqn:Hq; [|reflexivity].
      apply bool_decide_eq_true in Hq. exfalso. apply H2. unfold JS.zero.
      now rewrite Hq.
    + intros [E | E]; rewrite E; reflexivity.
  - exists (BreakdownRow.mk "QA Engineer" (Fin (qc 10)) (Fin (qc 400)) JS.zero).
    split.
    { assert (E : calculatedBreakdown (aggregate qa_document ∅)
                  = [BreakdownRow.mk "QA Engineer" (Fin (qc 10)) (Fin (qc 400)) JS.zero]).
      { vm_compute. repeat f_equal; apply Qc_is_canon; reflexivity. }
      rewrite E. apply list_elem_of_here. }
    split; [apply lookup_empty|].
    split; [reflexivity|]. split; [reflexivity|].
    simpl. intros H.
    apply (f_equal (fun n => match n with Fin q => Qnum (this q) | _ => 0 end)) in H.
    vm_compute in H. discriminate H.
Qed.

Lemma breakdown_reported_rate_witness :
  exists row,
    row ∈ calculatedBreakdown (aggregate qa_document ∅) /\
    BreakdownRow.hourlyRate row = JS.zero.
Proof.
  destruct (proj2 breakdown_reported_rate) as (row & Hin & Hnone & _).
  exists row. split; [exact Hin|].
  exact (proj2 (proj2 (proj1 breakdown_reported_rate qa_document ∅ row Hin)) Hnone).
Defined.

(** ** Consistency of the sums *)

Lemma bm_cost_cons (k : string) (e : BreakdownEntry.t) (m : BreakdownMap) :
  bm_cost ((k, e) :: m) = (BreakdownEntry.cost e + bm_cost m)%js.
Proof. unfold bm_cost. simpl. apply sum_cons. Qed.

Lemma bm_cost_app (m1 m2 : BreakdownMap) :
  bm_cost (m1 ++ m2) = (bm_cost m1 + bm_cost m2)%js.
Proof. unfold bm_cost. rewrite map_app. apply sum_app. Qed.

Lemma bm_alter_cost_same (f : BreakdownEntry.t -> BreakdownEntry.t)
    (key : string) (m : BreakdownMap) :
  (forall e, BreakdownEntry.cost (f e) = BreakdownEntry.cost e) ->
  bm_cost (bm_alter f key m) = bm_cost m.
Proof.
  intros Hf. induction m as [|[k e] m IH]; simpl; [reflexivity|].
  destruct (bool_decide (k = key)).
  - now rewrite !bm_cost_cons, Hf.
  - now rewrite !bm_cost_cons, IH.
Qed.

Lemma bm_alter_cost_add (f : BreakdownEntry.t -> BreakdownEntry.t)
    (key : string) (m : BreakdownMap) (c : number) :
  (forall e, BreakdownEntry.cost (f e) = (BreakdownEntry.cost e + c)%js) ->
  is_Some (bm_lookup key m) ->
  bm_cost (bm_alter f key m) = (bm_cost m + c)%js.
Proof.
  intros Hf. induction m as [|[k e] m IH]; simpl; intros Hin.
  - now destruct Hin.
  - destruct (bool_decide (k = key)).
    + rewrite !bm_cost_cons, Hf.
      rewrite <- !add_assoc. f_equal. apply add_comm.
    + rewrite !bm_cost_cons, (IH Hin). apply add_assoc.
Qed.

Lemma bm_lookup_alter (f : BreakdownEntry.t -> BreakdownEntry.t)
    (key : string) (m : BreakdownMap) :
  is_Some (bm_lookup key m) -> is_Some (bm_lookup key (bm_alter f key m)).
Proof.
  induction m as [|[k e] m IH]; simpl; [trivial|].
  destruct (bool_decide (k = key)) eqn:E; simpl; rewrite E; eauto.
Qed.

Lemma bm_lookup_app_new (key : string) (e : BreakdownEntry.t) (m : BreakdownMap) :
  is_Some (bm_lookup key (m ++ [(key, e)])).
Proof.
  induction m as [|[k e'] m IH]; simpl.
  - rewrite bool_decide_eq_true_2 by reflexivity. eauto.
  - destruct (bool_decide (k = key)); eauto.
Qed.

Lemma process_task_breakdown (roleRates : RateStore) (s : Totals)
    (task : PhaseTask.t) :
  bm_cost (breakdownMap (process_task roleRates s task))
  = (bm_cost (breakdownMap s) + taskCost roleRates task)%js.
Proof.
  unfold process_task. cbn [breakdownMap].
  set (key := sanitizeRole (PhaseTask.assignedRole task)).
  set (created := match bm_lookup key (breakdownMap s) with
                  | Some _ => breakdownMap s
                  | None => _
                  end).
  assert (Hin : is_Some (bm_lookup key created)).
  { subst created. destruct (bm_lookup key (breakdownMap s)) eqn:E.
    - rewrite E. eauto.
    - apply bm_lookup_app_new. }
  assert (Hcost : bm_cost created = bm_cost (breakdownMap s)).
  { subst created. destruct (bm_lookup key (breakdownMap s)); [reflexivity|].
    rewrite bm_cost_app. unfold bm_cost at 2. simpl.
    change (JS.sum [JS.zero]) with (JS.zero + JS.zero)%js.
    now rewrite !add_zero_r. }
  rewrite (bm_alter_cost_add _ _ _ (taskCost roleRates task)).
  - rewrite bm_alter_cost_same by reflexivity. now rewrite Hcost.
  - reflexivity.
  - now apply bm_lookup_alter.
Qed.

Lemma fold_process_task (roleRates : RateStore) (ts : list PhaseTask.t)
    (s : Totals) :
  let s' := fold_left (process_task roleRates) ts s in
  let c := JS.sum (map (taskCost roleRates) ts) in
  phaseCost s' = (phaseCost s + c)%js /\
  totalCost s' = (totalCost s + c)%js /\
  bm_cost (breakdownMap s') = (bm_cost (breakdownMap s) + c)%js.
Proof.
  revert s. induction ts as [|t ts IH]; intros s; cbn zeta.
  - change (JS.sum (map (taskCost roleRates) [])) with JS.zero.
    rewrite !add_zero_r. auto.
  - specialize (IH (process_task roleRates s t)). cbn zeta in IH.
    destruct IH as (H1 & H2 & H3).
    change (fold_left (process_task roleRates) (t :: ts) s)
      with (fold_left (process_task roleRates) ts (process_task roleRates s t)).
    change (map (taskCost roleRates) (t :: ts))
      with (taskCost roleRates t :: map (taskCost roleRates) ts).
    rewrite H1, H2, H3, sum_cons, process_task_breakdown.
    destruct (process_task_costs roleRates s t) as [-> ->].
    rewrite !add_assoc. auto.
Qed.



Lemma process_phases_sums (roleRates : RateStore)
    (phases : list PhaseEstimate.t) (s : Totals) :
  let r := process_phases roleRates s phases in
  Forall2 (fun phase p =>
             PhaseEstimate.tasks p = PhaseEstimate.tasks phase /\
             PhaseEstimate.estimatedCost p
             = JS.sum (map (taskCost roleRates) (PhaseEstimate.tasks phase)))
          phases (fst r) /\
  totalCost (snd r)
  = (totalCost s + JS.sum (map PhaseEstimate.estimatedCost (fst r)))%js /\
  bm_cost (breakdownMap (snd r))
  = (bm_cost (breakdownMap s) + JS.sum (map PhaseEstimate.estimatedCost (fst r)))%js.
Proof.
  revert s. induction phases as [|phase rest IH]; intros s; cbn zeta.
  - simpl. change (JS.sum []) with JS.zero. rewrite !add_zero_r. auto.
  - cbn [process_phases]. unfold process_phase.
    set (s0 := {| phaseCost := JS.zero; breakdownMap := breakdownMap s;
                  totalCost := totalCost s; totalHours := totalHours s |}).
    destruct (fold_process_task roleRates (PhaseEstimate.tasks phase) s0)
      as (H1 & H2 & H3).
    cbn zeta in H1, H2, H3.
    change (phaseCost s0) with JS.zero in H1. rewrite add_zero_l in H1.
    change (totalCost s0) with (totalCost s) in H2.
    change (breakdownMap s0) with (breakdownMap s) in H3.
    set (s1 := fold_left (process_task roleRates) (PhaseEstimate.tasks phase) s0) in *.
    specialize (IH s1). cbn zeta in IH.
    destruct (process_phases roleRates s1 rest) as [ps s2].
    destruct IH as (F & T & B). cbn [fst snd] in *.
    split; [constructor; [split; [reflexivity | exact H1] | exact F]|].
    change (map PhaseEstimate.estimatedCost
              (with_estimatedCost phase (phaseCost s1) :: ps))
      with (phaseCost s1 :: map PhaseEstimate.estimatedCost ps).
    rewrite sum_cons, T, B, H1, H2, H3. rewrite !add_assoc. auto.
Qed.



(** ** Initialisation of the rate store *)










(** What the effect does with a rate of 0 in the cost breakdown: the
    rate of the first task of that role replaces it. *)
Example initialRates_zero_rate :
  initialRates zero_rate_document !! "qa_engineer" = Some (qc 40) /\
  initialRates_absent zero_rate_document !! "qa_engineer" = Some (qc 0).
Proof. split; reflexivity. Qed.



(** ** The resolved duration *)

Lemma max2_Fin (a b : Qc) :
  JS.max2 (Fin a) (Fin b) = Fin (if bool_decide (a < b)%Qc then b else a).
Proof. unfold JS.max2, JS.ltb. now destruct (bool_decide (a < b)%Qc). Qed.









Example calculatedWeeks_scenario :
  calculatedWeeks (document [] [] scenario_roadmap []) JS.zero = JS.of_Z 8.
Proof. vm_compute. reflexivity. Qed.

(** ** The roadmap bars *)

Lemma Qc_max_sym (a b : Qc) :
  (if bool_decide (a < b)%Qc then b else a)
  = (if bool_decide (b < a)%Qc then a else b).
Proof.
  destruct (bool_decide (a < b)%Qc) eqn:E1, (bool_decide (b < a)%Qc) eqn:E2;
    try reflexivity.
  - apply bool_decide_eq_true in E1, E2.
    exfalso. apply (Qclt_not_le _ _ E1). now apply Qclt_le_weak.
  - apply bool_decide_eq_false in E1, E2.
    apply Qcle_antisym; now apply Qcnot_lt_le.
Qed.

Lemma Math_max_pair (a b : Qc) :
  JS.Math_max [Fin a; Fin b] = Fin (if bool_decide (b < a)%Qc then a else b).
Proof.
  unfold JS.Math_max. cbn [fold_left].
  change (JS.max2 NInf (Fin a)) with (Fin a).
  rewrite max2_Fin. f_equal. apply Qc_max_sym.
Qed.

Lemma placeBar_safe (maxDuration : number) (item : RoadmapItem.t) :
  safeStart (placeBar maxDuration item)
  = Fin (RoadmapItem.startWeek (clamp_item item)) /\
  safeEnd (placeBar maxDuration item)
  = Fin (RoadmapItem.endWeek (clamp_item item)).
Proof.
  unfold placeBar. cbn [safeStart safeEnd].
  change (JS.of_Z 1) with (Fin (Q2Qc 1)).
  rewrite Math_max_pair, Qc_max_sym.
  rewrite Math_max_pair, Qc_max_sym.
  split; reflexivity.
Qed.

Lemma clamp_item_bounds (item : RoadmapItem.t) :
  (Q2Qc 1 <= RoadmapItem.startWeek (clamp_item item))%Qc /\
  (RoadmapItem.startWeek (clamp_item item)
   <= RoadmapItem.endWeek (clamp_item item))%Qc.
Proof.
  unfold clamp_item. cbn [RoadmapItem.startWeek RoadmapItem.endWeek]. split.
  - destruct (bool_decide (RoadmapItem.startWeek item < Q2Qc 1)%Qc) eqn:E.
    + apply Qcle_refl.
    + apply bool_decide_eq_false in E. now apply Qcnot_lt_le.
  - match goal with |- (?s <= (if bool_decide (?e < ?s)%Qc then _ else _))%Qc =>
      destruct (bool_decide (e < s)%Qc) eqn:E end.
    + apply Qcle_refl.
    + apply bool_decide_eq_false in E. now apply Qcnot_lt_le.
Qed.

Lemma Qc_sign_pos (q : Qc) : (0 < q)%Qc -> JS.Qc_sign q = Gt.
Proof.
  unfold Qclt, Qlt, JS.Qc_sign. simpl. rewrite Z.mul_1_r.
  intros H. now apply Z.compare_gt_iff.
Qed.

Lemma Qc_inv_pos (q : Qc) : (0 < q)%Qc -> (0 < / q)%Qc.
Proof.
  unfold Qclt. intros H.
  change (this (/ q)%Qc) with (Qred (/ this q)). rewrite Qred_correct.
  change (this 0%Qc) with 0%Q in *. now apply Qinv_lt_0_compat.
Qed.

Lemma Qc_hundred_pos : (0 < Q2Qc (inject_Z 100))%Qc.
Proof. reflexivity. Qed.

Lemma percent_nonneg (x n : Qc) :
  (0 <= x)%Qc -> (0 < n)%Qc -> (0 <= x / n * Q2Qc (inject_Z 100))%Qc.
Proof.
  intros Hx Hn.
  rewrite <- (Qcmult_0_l (Q2Qc (inject_Z 100))).
  apply Qcmult_le_compat_r; [|apply Qclt_le_weak, Qc_hundred_pos].
  unfold Qcdiv. rewrite <- (Qcmult_0_l (/ n)).
  apply Qcmult_le_compat_r; [exact Hx|].
  now apply Qclt_le_weak, Qc_inv_pos.
Qed.

Lemma percent_pos (x n : Qc) :
  (0 < x)%Qc -> (0 < n)%Qc -> (0 < x / n * Q2Qc (inject_Z 100))%Qc.
Proof.
  intros Hx Hn.
  rewrite <- (Qcmult_0_l (Q2Qc (inject_Z 100))).
  apply Qcmult_lt_compat_r; [apply Qc_hundred_pos|].
  unfold Qcdiv. rewrite <- (Qcmult_0_l (/ n)).
  apply Qcmult_lt_compat_r; [now apply Qc_inv_pos | exact Hx].
Qed.

Lemma div_Fin_pos (x n : Qc) :
  (0 < n)%Qc -> (Fin x / Fin n)%js = Fin (x / n)%Qc.
Proof. intros Hn. unfold JS.div. now rewrite (Qc_sign_pos _ Hn). Qed.

Lemma placeBar_percent (maxDuration : number) (item : RoadmapItem.t) :
  let b := placeBar maxDuration item in
  leftPercent b = ((safeStart b - JS.of_Z 1) / maxDuration * JS.of_Z 100)%js /\
  widthPercent b
  = ((safeEnd b - safeStart b + JS.of_Z 1) / maxDuration * JS.of_Z 100)%js.
Proof. split; reflexivity. Qed.

(** C6, as stated, fails in the duration resolver: for an interval from
    week 5 to week 2 the resolved duration is 2, whereas the interval
    treated as ending in week 5 gives 5, which is where its bar ends. *)
Lemma calculatedWeeks_not_clamped :
  calculatedWeeks backwards_document JS.zero = JS.of_Z 2 /\
  calculatedWeeks
    (with_roadmap backwards_document
       (map clamp_item (EstimationResult.roadmap backwards_document)))
    JS.zero = JS.of_Z 5 /\
  Forall (fun item => safeEnd (placeBar (JS.of_Z 8) item) = JS.of_Z 5)
         (EstimationResult.roadmap backwards_document) /\
  calculatedWeeks backwards_document JS.zero
  <> calculatedWeeks
       (with_roadmap backwards_document
          (map clamp_item (EstimationResult.roadmap backwards_document)))
       JS.zero.
Proof.
  assert (H2 : calculatedWeeks backwards_document JS.zero = JS.of_Z 2)
    by (vm_compute; reflexivity).
  assert (H5 : calculatedWeeks
                 (with_roadmap backwards_document
                    (map clamp_item (EstimationResult.roadmap backwards_document)))
                 JS.zero = JS.of_Z 5)
    by (vm_compute; reflexivity).
  split; [exact H2|]. split; [exact H5|]. split.
  - repeat constructor. 
  - rewrite H2, H5. intros E.
    apply (f_equal (fun n => match n with Fin q => Qnum (this q) | _ => 0 end)) in E.
    vm_compute in E. discriminate E.
Qed.

(** C6, amended: in the placement of the roadmap bars every interval
    is clamped: a start week below 1 counts as 1, and an end week below
    the start so obtained counts as that start.  So no bar starts before
    week 1 or spans less than one week, and on a grid of positive width
    its offset is not negative and its width is positive.  (The
    duration resolver reads the end weeks as they are.) *)
Theorem placeBar_clamps (maxDuration : number) (item : RoadmapItem.t) :
  let c := clamp_item item in
  let b := placeBar maxDuration item in
  ((RoadmapItem.startWeek item < Q2Qc 1)%Qc ->
   RoadmapItem.startWeek c = Q2Qc 1) /\
  (~ (RoadmapItem.startWeek item < Q2Qc 1)%Qc ->
   RoadmapItem.startWeek c = RoadmapItem.startWeek item) /\
  ((RoadmapItem.endWeek item < RoadmapItem.startWeek c)%Qc ->
   RoadmapItem.endWeek c = RoadmapItem.startWeek c) /\
  (~ (RoadmapItem.endWeek item < RoadmapItem.startWeek c)%Qc ->
   RoadmapItem.endWeek c = RoadmapItem.endWeek item) /\
  safeStart b = Fin (RoadmapItem.startWeek c) /\
  safeEnd b = Fin (RoadmapItem.endWeek c) /\
  (Q2Qc 1 <= RoadmapItem.startWeek c)%Qc /\
  (RoadmapItem.startWeek c <= RoadmapItem.endWeek c)%Qc /\
  (forall n : Qc, maxDuration = Fin n -> (0 < n)%Qc ->
     exists l w : Qc,
       leftPercent b = Fin l /\ widthPercent b = Fin w /\
       (0 <= l)%Qc /\ (0 < w)%Qc).
Proof.
  intros c b.
  destruct (placeBar_safe maxDuration item) as [Hs He].
  destruct (clamp_item_bounds item) as [H1 H2]. fold c in H1, H2, Hs, He.
  repeat split; trivial.
  - intros H. subst c. unfold clamp_item. cbn [RoadmapItem.startWeek].
    now rewrite bool_decide_eq_true_2.
  - intros H. subst c. unfold clamp_item. cbn [RoadmapItem.startWeek].
    now rewrite bool_decide_eq_false_2.
  - intros H. subst c. unfold clamp_item in *.
    cbn [RoadmapItem.startWeek RoadmapItem.endWeek] in *.
    now rewrite bool_decide_eq_true_2.
  - intros H. subst c. unfold clamp_item in *.
    cbn [RoadmapItem.startWeek RoadmapItem.endWeek] in *.
    now rewrite bool_decide_eq_false_2.
  - intros n -> Hn.
    destruct (placeBar_percent (Fin n) item) as [Hl Hw]. subst b.
    cbn zeta in Hl, Hw. rewrite Hl, Hw, Hs, He.
    set (s := RoadmapItem.startWeek c) in *.
    set (e := RoadmapItem.endWeek c) in *.
    exists ((s + - Q2Qc (inject_Z 1)) / n * Q2Qc (inject_Z 100))%Qc,
           ((e + - s + Q2Qc (inject_Z 1)) / n * Q2Qc (inject_Z 100))%Qc.
    split; [|split; [|split]].
    + unfold JS.sub. cbn [JS.neg JS.of_Z JS.add].
      now rewrite (div_Fin_pos _ _ Hn).
    + unfold JS.sub. cbn [JS.neg JS.of_Z JS.add].
      now rewrite (div_Fin_pos _ _ Hn).
    + apply percent_nonneg; [|exact Hn]. now apply Qcle_minus_iff in H1.
    + apply percent_pos; [|exact Hn].
      apply Qcle_minus_iff in H2.
      apply Qclt_le_trans with (0 + Q2Qc (inject_Z 1))%Qc; [reflexivity|].
      apply Qcplus_le_compat; [exact H2 | apply Qcle_refl].
Qed.

Lemma placeBar_clamps_witness :
  exists l w : Qc,
    leftPercent (placeBar (JS.of_Z 8) (RoadmapItem.mk "Backend" (qc 0) (qc 2) "API"))
    = Fin l /\
    widthPercent (placeBar (JS.of_Z 8) (RoadmapItem.mk "Backend" (qc 0) (qc 2) "API"))
    = Fin w /\
    (0 <= l)%Qc /\ (0 < w)%Qc.
Proof.
  apply (placeBar_clamps (JS.of_Z 8) (RoadmapItem.mk "Backend" (qc 0) (qc 2) "API"))
    with (n := Q2Qc (inject_Z 8)); reflexivity.
Defined.

(** ** The timeline grid *)

Lemma leb_of_Z (w n : Z) : JS.leb (JS.of_Z w) (JS.of_Z n) = (w <=? n)%Z.
Proof.
  unfold JS.leb, JS.of_Z.
  destruct (w <=? n)%Z eqn:E.
  - apply bool_decide_eq_true. unfold Qcle.
    change (Qred (inject_Z w) <= Qred (inject_Z n))%Q.
    rewrite !Qred_correct. rewrite <- Zle_Qle. now apply Z.leb_le.
  - apply bool_decide_eq_false. unfold Qcle.
    change (~ (Qred (inject_Z w) <= Qred (inject_Z n))%Q).
    rewrite !Qred_correct. rewrite <- Zle_Qle. now apply Z.leb_gt, Z.lt_nge in E.
Qed.

Lemma grid_fuel_of_Z (n : Z) : grid_fuel (JS.of_Z n) = Z.to_nat n.
Proof.
  unfold grid_fuel, JS.of_Z.
  change (this (Q2Qc (inject_Z n))) with (Qred (inject_Z n)).
  rewrite (Qfloor_comp _ _ (Qred_correct (inject_Z n))). now rewrite Qfloor_Z.
Qed.

Lemma grid_step_flat (anchor : Date.t) (w : Z) (st : GridState) :
  grid_flat (grid_step anchor w st) = (grid_flat st ++ [w])%list.
Proof.
  unfold grid_step, grid_flat.
  destruct (negb (bool_decide (_ = currentMonthLabel st))); cbn [groups currentWeekList].
  - destruct (currentWeekList st) as [|x xs]; cbn [length Nat.ltb Nat.leb].
    + now rewrite app_nil_r.
    + rewrite map_app, concat_app. simpl. now rewrite app_nil_r.
  - now rewrite app_assoc.
Qed.

Lemma grid_step_ok (anchor : Date.t) (w : Z) (st : GridState) :
  grid_ok anchor st -> grid_ok anchor (grid_step anchor w st).
Proof.
  intros [Hg Hc]. unfold grid_step.
  destruct (bool_decide (_ = currentMonthLabel st)) eqn:E; simpl.
  - apply bool_decide_eq_true in E. split; [exact Hg|].
    apply Forall_app. split; [exact Hc|]. constructor; [now symmetry | constructor].
  - split; [|constructor; [reflexivity | constructor]].
    destruct (currentWeekList st) as [|x xs] eqn:El; simpl; [exact Hg|].
    apply Forall_app. split; [exact Hg|].
    constructor; [|constructor]. split; [simpl; discriminate | exact Hc].
Qed.

Lemma grid_loop_runs (n : Z) (anchor : Date.t) (k fuel : nat) (w : Z)
    (st : GridState) :
  k = Z.to_nat (n + 1 - w) -> (k <= fuel)%nat -> grid_ok anchor st ->
  exists st',
    grid_loop (JS.of_Z n) anchor fuel w st = Some st' /\
    grid_flat st' = (grid_flat st ++ seqZ w (n + 1 - w))%list /\
    grid_ok anchor st'.
Proof.
  revert fuel w st. induction k as [|k IH]; intros fuel w st Hw Hf Hok.
  - exists st. split; [|split; [|exact Hok]].
    + destruct fuel; cbn [grid_loop]; rewrite leb_of_Z;
        now rewrite (proj2 (Z.leb_gt w n)) by lia.
    + unfold seqZ. rewrite <- Hw. simpl. now rewrite app_nil_r.
  - destruct fuel as [|fuel]; [lia|].
    destruct (IH fuel (w + 1) (grid_step anchor w st)) as (st' & Hl & Hfl & Hok');
      [lia | lia | now apply grid_step_ok |].
    exists st'. split; [|split; [|exact Hok']].
    + cbn [grid_loop]. rewrite leb_of_Z. now rewrite (proj2 (Z.leb_le w n)) by lia.
    + rewrite Hfl, grid_step_flat, <- app_assoc. f_equal.
      rewrite (seqZ_cons w (n + 1 - w)) by lia.
      simpl. do 2 f_equal; lia.
Qed.


Example timeline_march :
  timelineGroups (JS.of_Z 5) (Date.make 2025 2 1)
  = Some [mkGroup "marzo de 2025" [1; 2; 3; 4; 5]].
Proof. vm_compute. reflexivity. Qed.

Example timeline_late_march :
  timelineGroups (JS.of_Z 5) (Date.make 2025 2 25)
  = Some [mkGroup "marzo de 2025" [1]; mkGroup "abril de 2025" [2; 3; 4; 5]].
Proof. vm_compute. reflexivity. Qed.

Example projectStartDate_december :
  projectStartDate (Date.mk 2025 11 17) = Date.mk 2026 0 1.
Proof. vm_compute. reflexivity. Qed.

(** ** A failed analysis *)

Section AnalyzeFacts.

Variable JSON_parse : string -> option EstimationResult.t.



End AnalyzeFacts.


(** * Further properties of the code *)

(** ** The aggregation, task by task *)

Lemma process_task_same (roleRates : RateStore) (s s' : Totals) (t : PhaseTask.t) :
  same_totals s s' ->
  same_totals (process_task roleRates s t) (process_task roleRates s' t).
Proof.
  intros (Hb & Hc & Hh). unfold same_totals, process_task.
  cbn [breakdownMap totalCost totalHours]. now rewrite Hb, Hc, Hh.
Qed.

Lemma fold_process_task_same (roleRates : RateStore) (ts : list PhaseTask.t)
    (s s' : Totals) :
  same_totals s s' ->
  same_totals (fold_left (process_task roleRates) ts s)
              (fold_left (process_task roleRates) ts s').
Proof.
  revert s s'. induction ts as [|t ts IH]; intros s s' H; [exact H|].
  apply IH. now apply process_task_same.
Qed.

(** The shared variables after the phases are those of one pass over
    all the tasks. *)
Lemma process_phases_flat (roleRates : RateStore)
    (phases : list PhaseEstimate.t) (s : Totals) :
  same_totals (snd (process_phases roleRates s phases))
              (fold_left (process_task roleRates)
                         (concat (map PhaseEstimate.tasks phases)) s).
Proof.
  revert s. induction phases as [|p ps IH]; intros s.
  - simpl. repeat split.
  - cbn [process_phases]. unfold process_phase.
    set (s0 := {| phaseCost := JS.zero; breakdownMap := breakdownMap s;
                  totalCost := totalCost s; totalHours := totalHours s |}).
    set (s1 := fold_left (process_task roleRates) (PhaseEstimate.tasks p) s0).
    specialize (IH s1).
    destruct (process_phases roleRates s1 ps) as [ps' s2]. cbn [snd] in *.
    cbn [map concat]. rewrite fold_left_app.
    destruct IH as (Hb & Hc & Hh).
    assert (H0 : same_totals s0 s) by (repeat split).
    pose proof (fold_process_task_same roleRates (PhaseEstimate.tasks p) s0 s H0)
      as H1. fold s1 in H1.
    pose proof (fold_process_task_same roleRates
                  (concat (map PhaseEstimate.tasks ps)) _ _ H1) as (Hb' & Hc' & Hh').
    repeat split; congruence.
Qed.

Lemma bm_lookup_alter_eq (f : BreakdownEntry.t -> BreakdownEntry.t)
    (key k : string) (m : BreakdownMap) :
  bm_lookup k (bm_alter f key m)
  = if bool_decide (key = k) then f <$> bm_lookup k m else bm_lookup k m.
Proof.
  induction m as [|[k' e] m IH]; simpl.
  - now destruct (bool_decide (key = k)).
  - destruct (bool_decide (k' = key)) eqn:E1; simpl.
    + apply bool_decide_eq_true in E1. subst k'.
      destruct (bool_decide (key = k)); reflexivity.
    + destruct (bool_decide (k' = k)) eqn:E2; [|exact IH].
      apply bool_decide_eq_true in E2. subst k'.
      apply bool_decide_eq_false in E1.
      now rewrite (bool_decide_eq_false_2 (key = k)) by congruence.
Qed.

Lemma bm_lookup_app (k key : string) (e : BreakdownEntry.t) (m : BreakdownMap) :
  bm_lookup k (m ++ [(key, e)])
  = match bm_lookup k m with
    | Some x => Some x
    | None => if bool_decide (key = k) then Some e else None
    end.
Proof.
  induction m as [|[k' e'] m IH]; simpl; [reflexivity|].
  destruct (bool_decide (k' = k)); [reflexivity | exact IH].
Qed.

Lemma bm_lookup_None (k : string) (m : BreakdownMap) :
  bm_lookup k m = None <-> k ∉ map fst m.
Proof.
  induction m as [|[k' e] m IH]; simpl.
  - split; [intros _; apply not_elem_of_nil | reflexivity].
  - rewrite not_elem_of_cons. destruct (bool_decide (k' = k)) eqn:E.
    + apply bool_decide_eq_true in E. split; [discriminate | intros [H _]; congruence].
    + apply bool_decide_eq_false in E. rewrite IH. split; [split; congruence | tauto].
Qed.

Lemma bm_lookup_Some_in (k : string) (e : BreakdownEntry.t) (m : BreakdownMap) :
  bm_lookup k m = Some e -> (k, e) ∈ m.
Proof.
  induction m as [|[k' e'] m IH]; simpl; [discriminate|].
  destruct (bool_decide (k' = k)) eqn:E.
  - apply bool_decide_eq_true in E. intros [= ->]. subst. apply list_elem_of_here.
  - intros H. apply list_elem_of_further. auto.
Qed.

Lemma bm_in_lookup (k : string) (e : BreakdownEntry.t) (m : BreakdownMap) :
  NoDup (map fst m) -> (k, e) ∈ m -> bm_lookup k m = Some e.
Proof.
  induction m as [|[k' e'] m IH]; simpl; intros Hnd Hin.
  - now apply elem_of_nil in Hin.
  - apply NoDup_cons in Hnd as [Hk' Hnd].
    apply elem_of_cons in Hin as [[= -> ->] | Hin].
    + now rewrite bool_decide_eq_true_2.
    + rewrite bool_decide_eq_false_2; [auto|].
      intros ->. apply Hk'. apply list_elem_of_fmap. now exists (k, e).
Qed.

Lemma bm_alter_keys (f : BreakdownEntry.t -> BreakdownEntry.t) (key : string)
    (m : BreakdownMap) :
  map fst (bm_alter f key m) = map fst m.
Proof.
  induction m as [|[k e] m IH]; simpl; [reflexivity|].
  destruct (bool_decide (k = key)); simpl; [reflexivity | now rewrite IH].
Qed.

Lemma bm_alter_roles (f : BreakdownEntry.t -> BreakdownEntry.t) (key : string)
    (m : BreakdownMap) :
  (forall e, BreakdownEntry.role (f e) = BreakdownEntry.role e) ->
  Forall (fun kv => sanitizeRole (BreakdownEntry.role (snd kv)) = fst kv) m ->
  Forall (fun kv => sanitizeRole (BreakdownEntry.role (snd kv)) = fst kv)
         (bm_alter f key m).
Proof.
  intros Hf. induction 1 as [|[k e] m H Hm IH]; simpl; [constructor|].
  destruct (bool_decide (k = key)); constructor; simpl in *; trivial.
  now rewrite Hf.
Qed.

(** What one task does to the entry of a key. *)
Lemma process_task_lookup (roleRates : RateStore) (s : Totals)
    (t : PhaseTask.t) (k : string) :
  bm_lookup k (breakdownMap (process_task roleRates s t))
  = if bool_decide (task_key t = k)
    then entry_after roleRates (bm_lookup k (breakdownMap s)) [t]
    else bm_lookup k (breakdownMap s).
Proof.
  unfold process_task. cbn [breakdownMap]. fold (task_key t).
  rewrite !bm_lookup_alter_eq.
  destruct (bool_decide (task_key t = k)) eqn:E.
  - apply bool_decide_eq_true in E. rewrite <- E.
    destruct (bm_lookup (task_key t) (breakdownMap s)) as [e|] eqn:El.
    + rewrite El. reflexivity.
    + rewrite bm_lookup_app, El, bool_decide_eq_true_2 by reflexivity.
      simpl. unfold JS.sum. simpl. reflexivity.
  - destruct (bm_lookup (task_key t) (breakdownMap s)); [reflexivity|].
    rewrite bm_lookup_app, E. now destruct (bm_lookup k (breakdownMap s)).
Qed.

Lemma process_task_wf (roleRates : RateStore) (s : Totals) (t : PhaseTask.t) :
  bm_wf (breakdownMap s) -> bm_wf (breakdownMap (process_task roleRates s t)).
Proof.
  intros [Hnd Hr]. unfold process_task. cbn [breakdownMap]. fold (task_key t).
  set (created := match bm_lookup (task_key t) (breakdownMap s) with
                  | Some _ => breakdownMap s
                  | None => _
                  end).
  assert (Hc : bm_wf created).
  { subst created. destruct (bm_lookup _ _) eqn:E; [now split|].
    apply bm_lookup_None in E. split.
    - rewrite map_app. simpl. apply NoDup_app. repeat split; trivial.
      + intros x Hx Hx'. apply list_elem_of_singleton in Hx'. now subst.
      + apply NoDup_singleton.
    - apply Forall_app. split; [exact Hr|]. now constructor. }
  destruct Hc as [Hnd' Hr']. split.
  - now rewrite !bm_alter_keys.
  - apply bm_alter_roles; [reflexivity|]. now apply bm_alter_roles.
Qed.

Lemma fold_process_task_wf (roleRates : RateStore) (ts : list PhaseTask.t)
    (s : Totals) :
  bm_wf (breakdownMap s) ->
  bm_wf (breakdownMap (fold_left (process_task roleRates) ts s)).
Proof.
  revert s. induction ts as [|t ts IH]; intros s H; [exact H|].
  apply IH. now apply process_task_wf.
Qed.

Lemma entry_after_app (roleRates : RateStore) (e0 : option BreakdownEntry.t)
    (t : PhaseTask.t) (ts : list PhaseTask.t) :
  entry_after roleRates (entry_after roleRates e0 [t]) ts
  = entry_after roleRates e0 (t :: ts).
Proof.
  destruct e0 as [e|]; simpl.
  - reflexivity.
  - unfold JS.sum. simpl. reflexivity.
Qed.

Lemma fold_process_task_lookup (roleRates : RateStore) (ts : list PhaseTask.t)
    (s : Totals) (k : string) :
  bm_lookup k (breakdownMap (fold_left (process_task roleRates) ts s))
  = entry_after roleRates (bm_lookup k (breakdownMap s)) (tasks_of k ts).
Proof.
  revert s. induction ts as [|t ts IH]; intros s.
  - simpl. now destruct (bm_lookup k (breakdownMap s)) as [[]|].
  - cbn [fold_left]. rewrite IH, process_task_lookup.
    unfold tasks_of. rewrite filter_cons.
    destruct (decide (task_key t = k)) as [E|E].
    + rewrite bool_decide_eq_true_2 by exact E. apply entry_after_app.
    + rewrite bool_decide_eq_false_2 by exact E. reflexivity.
Qed.

Lemma aggregate_flat (data : EstimationResult.t) (roleRates : RateStore) :
  let f := fold_left (process_task roleRates) (all_tasks data) start_totals in
  calculatedBreakdown (aggregate data roleRates)
  = breakdownList roleRates (breakdownMap f) /\
  totalCalculatedCost (aggregate data roleRates) = totalCost f /\
  totalCalculatedHours (aggregate data roleRates) = totalHours f.
Proof.
  cbn zeta. unfold aggregate. fold start_totals.
  pose proof (process_phases_flat roleRates (EstimationResult.phases data)
                start_totals) as (Hb & Hc & Hh).
  destruct (process_phases _ _ _) as [ps s]. cbn [snd] in *.
  cbn [calculatedBreakdown totalCalculatedCost totalCalculatedHours].
  unfold all_tasks. now rewrite Hb, Hc, Hh.
Qed.


Lemma start_wf : bm_wf (breakdownMap start_totals).
Proof. split; [apply NoDup_nil_2 | constructor]. Qed.



Lemma row_of_key (data : EstimationResult.t) (roleRates : RateStore)
    (row : BreakdownRow.t)
    (Hrow : row ∈ calculatedBreakdown (aggregate data roleRates)) :
  exists t ts,
    tasks_of (row_key row) (all_tasks data) = t :: ts /\
    BreakdownRow.role row = PhaseTask.assignedRole t /\
    BreakdownRow.totalHours row
    = JS.sum (map (fun t => Fin (PhaseTask.hours t)) (t :: ts)) /\
    BreakdownRow.subtotalCost row = JS.sum (map (taskCost roleRates) (t :: ts)).
Proof.
  destruct (aggregate_flat data roleRates) as (E & _ & _). rewrite E in Hrow.
  pose proof (fold_process_task_wf roleRates (all_tasks data) start_totals start_wf)
    as [Hnd Hr].
  set (m := breakdownMap (fold_left (process_task roleRates) (all_tasks data)
                            start_totals)) in *.
  unfold breakdownList in Hrow. apply list_elem_of_fmap in Hrow as ([k e] & -> & Hin).
  assert (Hk : sanitizeRole (BreakdownEntry.role e) = k).
  { rewrite Forall_forall in Hr. exact (Hr (k, e) Hin). }
  unfold row_key. cbn [BreakdownRow.role BreakdownRow.totalHours
                       BreakdownRow.subtotalCost]. rewrite Hk.
  pose proof (bm_in_lookup k e m Hnd Hin) as Hl. subst m.
  rewrite fold_process_task_lookup in Hl.
  change (bm_lookup k (breakdownMap start_totals)) with (@None BreakdownEntry.t) in Hl.
  destruct (tasks_of k (all_tasks data)) as [|t ts]; [discriminate|].
  simpl in Hl. injection Hl as <-. exists t, ts. repeat split.
Qed.

(** X2: the row of a role adds up the tasks of its key, in document
    order: its hours are the sum of their hours, its subtotal the sum of
    their recomputed costs, and its label is the role label of the first
    of them. *)
Theorem breakdown_row_sums (data : EstimationResult.t) (roleRates : RateStore)
    (row : BreakdownRow.t)
    (Hrow : row ∈ calculatedBreakdown (aggregate data roleRates)) :
  exists t ts,
    tasks_of (row_key row) (all_tasks data) = t :: ts /\
    BreakdownRow.role row = PhaseTask.assignedRole t /\
    BreakdownRow.totalHours row
    = JS.sum (map (fun t => Fin (PhaseTask.hours t)) (t :: ts)) /\
    BreakdownRow.subtotalCost row = JS.sum (map (taskCost roleRates) (t :: ts)).
Proof. exact (row_of_key data roleRates row Hrow). Qed.

Lemma breakdown_row_sums_witness :
  exists t ts,
    tasks_of "qa_engineer" (all_tasks qa_document) = t :: ts /\
    "QA Engineer" = PhaseTask.assignedRole t.
Proof.
  assert (Hin : BreakdownRow.mk "QA Engineer" (Fin (qc 10)) (Fin (qc 400)) JS.zero
                ∈ calculatedBreakdown (aggregate qa_document ∅)).
  { replace (calculatedBreakdown (aggregate qa_document ∅))
      with [BreakdownRow.mk "QA Engineer" (Fin (qc 10)) (Fin (qc 400)) JS.zero]
      by (vm_compute; reflexivity).
    apply list_elem_of_here. }
  destruct (breakdown_row_sums qa_document ∅ _ Hin) as (t & ts & Ht & Hr & _).
  exists t, ts. split; [exact Ht | exact Hr].
Defined.

(** ** Hours *)







(** ** Edits and the recomputation *)

Lemma effectiveRate_local (roleRates roleRates' : RateStore) (task : PhaseTask.t) :
  roleRates !! task_key task = roleRates' !! task_key task ->
  effectiveRate roleRates task = effectiveRate roleRates' task.
Proof. unfold effectiveRate, task_key. now intros ->. Qed.

Lemma taskCost_local (roleRates roleRates' : RateStore) (k : string)
    (ts : list PhaseTask.t) :
  roleRates !! k = roleRates' !! k ->
  map (taskCost roleRates) (tasks_of k ts) = map (taskCost roleRates') (tasks_of k ts).
Proof.
  intros H. apply map_ext_in. intros t Ht. apply list_elem_of_In in Ht.
  unfold tasks_of in Ht. apply list_elem_of_filter in Ht as [Hk _].
  unfold taskCost. f_equal. apply effectiveRate_local. now rewrite Hk.
Qed.

Lemma handleRateChange_other (roleRates : RateStore) (role newRate k : string) :
  k <> sanitizeRole role ->
  handleRateChange roleRates role newRate !! k = roleRates !! k.
Proof.
  intros Hk. unfold handleRateChange.
  destruct (_ || _); [|reflexivity]. now rewrite lookup_insert_ne.
Qed.

(** Rows of a key on which two stores agree are the same rows. *)
Lemma breakdown_rows_local (data : EstimationResult.t)
    (roleRates roleRates' : RateStore) (row : BreakdownRow.t) :
  roleRates !! row_key row = roleRates' !! row_key row ->
  row ∈ calculatedBreakdown (aggregate data roleRates) ->
  row ∈ calculatedBreakdown (aggregate data roleRates').
Proof.
  intros Hagree Hrow.
  destruct (aggregate_flat data roleRates) as (E & _ & _). rewrite E in Hrow.
  destruct (aggregate_flat data roleRates') as (-> & _ & _).
  pose proof (fold_process_task_wf roleRates (all_tasks data) start_totals start_wf)
    as [Hnd Hr].
  unfold breakdownList in Hrow. apply list_elem_of_fmap in Hrow as ([k e] & -> & Hin).
  assert (Hk : sanitizeRole (BreakdownEntry.role e) = k).
  { rewrite Forall_forall in Hr. exact (Hr (k, e) Hin). }
  unfold row_key in Hagree. cbn [BreakdownRow.role] in Hagree. rewrite Hk in Hagree.
  pose proof (bm_in_lookup k e _ Hnd Hin) as Hl.
  rewrite fold_process_task_lookup in Hl.
  assert (Hl' : bm_lookup k (breakdownMap (fold_left (process_task roleRates')
                                             (all_tasks data) start_totals)) = Some e).
  { rewrite fold_process_task_lookup, <- Hl.
    change (bm_lookup k (breakdownMap start_totals)) with (@None BreakdownEntry.t).
    unfold entry_after. destruct (tasks_of k (all_tasks data)) as [|t ts] eqn:Et;
      [reflexivity|].
    rewrite <- Et, (taskCost_local roleRates roleRates' k _ Hagree). reflexivity. }
  apply bm_lookup_Some_in in Hl'.
  unfold breakdownList. apply list_elem_of_fmap. exists (k, e). split; [|exact Hl'].
  cbn beta iota. now rewrite Hk, Hagree.
Qed.

Lemma processed_costs (data : EstimationResult.t) (roleRates : RateStore) :
  Forall2 (fun phase p =>
             PhaseEstimate.tasks p = PhaseEstimate.tasks phase /\
             PhaseEstimate.estimatedCost p
             = JS.sum (map (taskCost roleRates) (PhaseEstimate.tasks phase)))
          (EstimationResult.phases data)
          (phasesWithDynamicCost (aggregate data roleRates)).
Proof.
  unfold aggregate.
  pose proof (process_phases_sums roleRates (EstimationResult.phases data)
                {| phaseCost := JS.zero; breakdownMap := [];
                   totalCost := JS.zero; totalHours := JS.zero |}) as (F & _).
  destruct (process_phases _ _ _) as [ps s]. exact F.
Qed.

(** X4: an edit of the rate of one role is local.  The rows of the
    breakdown that belong to other role keys are the same before and
    after it, and so is the recomputed cost of every phase none of
    whose tasks has the key of the edited role. *)
Theorem edit_is_local (data : EstimationResult.t) (roleRates : RateStore)
    (role newRate : string) :
  let a := aggregate data roleRates in
  let a' := aggregate data (handleRateChange roleRates role newRate) in
  (forall row, row ∈ calculatedBreakdown a ->
               row_key row <> sanitizeRole role ->
               row ∈ calculatedBreakdown a') /\
  (forall (i : nat) p p',
      phasesWithDynamicCost a !! i = Some p ->
      phasesWithDynamicCost a' !! i = Some p' ->
      (forall t, t ∈ PhaseEstimate.tasks p -> task_key t <> sanitizeRole role) ->
      PhaseEstimate.estimatedCost p' = PhaseEstimate.estimatedCost p).
Proof.
  cbn zeta. split.
  - intros row Hrow Hk. eapply breakdown_rows_local; [|exact Hrow].
    symmetry. now apply handleRateChange_other.
  - intros i p p' Hp Hp' Hother.
    destruct (Forall2_lookup_r _ _ _ _ _ (processed_costs data roleRates) Hp)
      as (phase & Hph & Ht & Hc).
    destruct (Forall2_lookup_r _ _ _ _ _
                (processed_costs data (handleRateChange roleRates role newRate)) Hp')
      as (phase' & Hph' & Ht' & Hc').
    rewrite Hph in Hph'. injection Hph' as <-.
    rewrite Hc, Hc'. f_equal. apply map_ext_in. intros t Hin.
    apply list_elem_of_In in Hin. rewrite <- Ht in Hin.
    unfold taskCost. f_equal. apply effectiveRate_local.
    apply handleRateChange_other. now apply Hother.
Qed.

Lemma edit_is_local_witness :
  BreakdownRow.mk "QA Engineer" (Fin (qc 10)) (Fin (qc 400)) JS.zero
  ∈ calculatedBreakdown
      (aggregate qa_document (handleRateChange ∅ "Product Owner" "70")).
Proof.
  apply (proj1 (edit_is_local qa_document ∅ "Product Owner" "70")).
  - replace (calculatedBreakdown (aggregate qa_document ∅))
      with [BreakdownRow.mk "QA Engineer" (Fin (qc 10)) (Fin (qc 400)) JS.zero]
      by (vm_compute; reflexivity).
    apply list_elem_of_here.
  - discriminate.
Defined.

Lemma edit_rate_of_key (roleRates : RateStore) (role newRate : string)
    (Hacc : accepted_rate newRate) (task : PhaseTask.t) :
  task_key task = sanitizeRole role ->
  effectiveRate (handleRateChange roleRates role newRate) task
  = Number_of_string newRate /\
  taskCost (handleRateChange roleRates role newRate) task
  = (Fin (PhaseTask.hours task) * Number_of_string newRate)%js.
Proof.
  intros Hk. rewrite (handleRateChange_accepted _ _ _ Hacc).
  assert (E : effectiveRate (<[sanitizeRole role := RStr newRate]> roleRates) task
              = Number_of_string newRate).
  { unfold effectiveRate. fold (task_key task). rewrite Hk, lookup_insert_eq.
    destruct (decide (newRate = EmptyString)) as [-> | Hne]; [reflexivity|].
    rewrite select_rate_override by congruence. reflexivity. }
  split; [exact E|]. unfold taskCost. now rewrite E.
Qed.

(** X5: an accepted edit is what the recomputation and the input show
    next.  Every task of the edited role key then has the number
    written by the input as its rate and its hours times that number as
    its cost (0 for the empty input), the tasks of the other keys keep
    their rate, and the input of a row of that key shows the text as it
    was typed. *)
Theorem edit_takes_effect (roleRates : RateStore) (role newRate : string)
    (Hacc : accepted_rate newRate) :
  let edited := handleRateChange roleRates role newRate in
  (forall task, task_key task = sanitizeRole role ->
     effectiveRate edited task = Number_of_string newRate /\
     taskCost edited task
     = (Fin (PhaseTask.hours task) * Number_of_string newRate)%js) /\
  (forall task, task_key task <> sanitizeRole role ->
     effectiveRate edited task = effectiveRate roleRates task) /\
  (forall item, row_key item = sanitizeRole role ->
     rate_input_value edited item = RStr newRate).
Proof.
  cbn zeta. split; [|split].
  - intros task Hk. now apply edit_rate_of_key.
  - intros task Hk. apply effectiveRate_local. now apply handleRateChange_other.
  - rewrite (handleRateChange_accepted _ _ _ Hacc).
    intros item Hk. unfold rate_input_value. fold (row_key item).
    now rewrite Hk, lookup_insert_eq.
Qed.


Lemma edit_takes_effect_witness :
  accepted_rate "70" /\
  taskCost (handleRateChange ∅ "qa  engineer" "70") qa_task
  = (Fin (PhaseTask.hours qa_task) * Number_of_string "70")%js.
Proof.
  assert (H : accepted_rate "70")
    by (right; apply rate_pattern_test_spec; reflexivity).
  split; [exact H|].
  apply (proj1 (edit_takes_effect ∅ "qa  engineer" "70" H) qa_task).
  reflexivity.
Defined.

Example rate_scenario :
  taskCost {[ "back-end_developer" := RNum (Fin (qc 55)) ]}
           (PhaseTask.mk "API" (qc 10) (qc 550) "Back-end Developer" (qc 55))
  = Fin (qc 550) /\
  taskCost (handleRateChange {[ "back-end_developer" := RNum (Fin (qc 55)) ]}
              "Back-end Developer" "70")
           (PhaseTask.mk "API" (qc 10) (qc 550) "Back-end Developer" (qc 55))
  = Fin (qc 700) /\
  taskCost (handleRateChange {[ "back-end_developer" := RNum (Fin (qc 55)) ]}
              "Back-end Developer" "")
           (PhaseTask.mk "API" (qc 10) (qc 550) "Back-end Developer" (qc 55))
  = Fin (qc 0).
Proof. repeat split; vm_compute; reflexivity. Qed.

Lemma sum_NaN (xs : list number) : NaN ∈ xs -> JS.sum xs = NaN.
Proof.
  induction xs as [|x xs IH]; intros H; [now apply elem_of_nil in H|].
  rewrite sum_cons. apply elem_of_cons in H as [<- | H]; [reflexivity|].
  rewrite (IH H). now destruct x.
Qed.

Lemma total_cost_flat (data : EstimationResult.t) (roleRates : RateStore) :
  totalCalculatedCost (aggregate data roleRates)
  = JS.sum (map (taskCost roleRates) (all_tasks data)).
Proof.
  destruct (aggregate_flat data roleRates) as (_ & -> & _).
  destruct (fold_process_task roleRates (all_tasks data) start_totals)
    as (_ & H & _).
  cbn zeta in H. rewrite H. apply add_zero_l.
Qed.

(** X6: the lone dot passes the rate pattern and is not a number.
    Once it is the entry of a role that some task of the document has,
    the total cost is NaN, and so are the subtotal of that role and the
    cost of every phase with such a task. *)
Theorem lone_dot_spoils_totals (data : EstimationResult.t) (roleRates : RateStore)
    (role : string) (task : PhaseTask.t)
    (Htask : task ∈ all_tasks data)
    (Hrole : task_key task = sanitizeRole role) :
  let a := aggregate data (handleRateChange roleRates role ".") in
  accepted_rate "." /\
  totalCalculatedCost a = NaN /\
  (forall row, row ∈ calculatedBreakdown a -> row_key row = sanitizeRole role ->
               BreakdownRow.subtotalCost row = NaN) /\
  (forall p, p ∈ phasesWithDynamicCost a -> task ∈ PhaseEstimate.tasks p ->
             PhaseEstimate.estimatedCost p = NaN).
Proof.
  cbn zeta.
  assert (Hacc : accepted_rate ".")
    by (right; apply rate_pattern_test_spec; reflexivity).
  set (edited := handleRateChange roleRates role ".").
  assert (Hnan : forall t, task_key t = sanitizeRole role -> taskCost edited t = NaN).
  { intros t Ht. unfold edited.
    destruct (edit_rate_of_key roleRates role "." Hacc t Ht) as [_ ->].
    change (Number_of_string ".") with NaN. reflexivity. }
  split; [exact Hacc|]. split; [|split].
  - rewrite total_cost_flat. apply sum_NaN.
    apply list_elem_of_fmap. exists task. split; [|exact Htask].
    symmetry. now apply Hnan.
  - intros row Hrow Hk.
    destruct (row_of_key data edited row Hrow) as (t & ts & Hts & _ & _ & ->).
    apply sum_NaN. apply list_elem_of_fmap. exists t. split; [|apply list_elem_of_here].
    symmetry. apply Hnan.
    assert (Hin : t ∈ tasks_of (row_key row) (all_tasks data))
      by (rewrite Hts; apply list_elem_of_here).
    unfold tasks_of in Hin. apply list_elem_of_filter in Hin as [Ht _]. congruence.
  - intros p Hp Hin. apply list_elem_of_lookup in Hp as [i Hp].
    destruct (Forall2_lookup_r _ _ _ _ _ (processed_costs data edited) Hp)
      as (phase & _ & Ht & ->).
    apply sum_NaN. apply list_elem_of_fmap. exists task.
    split; [symmetry; now apply Hnan | now rewrite <- Ht].
Qed.

Lemma lone_dot_spoils_totals_witness :
  qa_task ∈ all_tasks qa_document /\
  totalCalculatedCost (aggregate qa_document (handleRateChange ∅ "QA Engineer" "."))
  = NaN.
Proof.
  assert (H : qa_task ∈ all_tasks qa_document) by apply list_elem_of_here.
  split; [exact H|].
  exact (proj1 (proj2 (lone_dot_spoils_totals qa_document ∅ "QA Engineer" qa_task
                         H eq_refl))).
Defined.

(** ** The store after the effect *)


Lemma handleRateChange_keeps (roleRates : RateStore) (role newRate k : string) :
  is_Some (roleRates !! k) ->
  is_Some (handleRateChange roleRates role newRate !! k).
Proof.
  intros H. unfold handleRateChange. destruct (_ || _); [|exact H].
  rewrite lookup_insert_is_Some. destruct (decide (sanitizeRole role = k)); auto.
Qed.





(** ** Composition of edits *)

(** X8: how edits compose.  No edit removes a key from the store; an
    accepted edit replaces an earlier edit of the same role key, also
    when the role is written differently; and edits of different role
    keys commute. *)
Theorem edits_compose (roleRates : RateStore) (role1 role2 rate1 rate2 : string) :
  (forall k, is_Some (roleRates !! k) ->
             is_Some (handleRateChange roleRates role1 rate1 !! k)) /\
  (accepted_rate rate2 -> sanitizeRole role1 = sanitizeRole role2 ->
   handleRateChange (handleRateChange roleRates role1 rate1) role2 rate2
   = handleRateChange roleRates role2 rate2) /\
  (accepted_rate rate2 -> same_label role1 role2 ->
   handleRateChange (handleRateChange roleRates role1 rate1) role2 rate2
   = handleRateChange roleRates role2 rate2) /\
  (sanitizeRole role1 <> sanitizeRole role2 ->
   handleRateChange (handleRateChange roleRates role1 rate1) role2 rate2
   = handleRateChange (handleRateChange roleRates role2 rate2) role1 rate1).
Proof.
  assert (Hover : accepted_rate rate2 -> sanitizeRole role1 = sanitizeRole role2 ->
                  handleRateChange (handleRateChange roleRates role1 rate1) role2 rate2
                  = handleRateChange roleRates role2 rate2).
  { intros H2 Hk. rewrite !(handleRateChange_accepted _ role2 rate2 H2).
    unfold handleRateChange. destruct (_ || _); [|reflexivity].
    rewrite Hk. apply insert_insert_eq. }
  split; [intros k; apply handleRateChange_keeps|].
  split; [exact Hover|]. split.
  - intros H2 Hl. apply Hover; [exact H2 | now apply same_label_key].
  - intros Hk. unfold handleRateChange.
    destruct (bool_decide (rate1 = EmptyString) || rate_pattern_test rate1),
             (bool_decide (rate2 = EmptyString) || rate_pattern_test rate2);
      try reflexivity.
    now apply insert_insert_ne.
Qed.

Lemma edits_compose_witness :
  handleRateChange (handleRateChange ∅ "QA Engineer" "40") "qa   engineer" "45"
  = handleRateChange ∅ "qa   engineer" "45".
Proof.
  apply (proj1 (proj2 (edits_compose ∅ "QA Engineer" "qa   engineer" "40" "45"))).
  - right. apply rate_pattern_test_spec. reflexivity.
  - reflexivity.
Defined.

(** ** What the aggregation reads *)

Lemma process_task_effort (roleRates : RateStore) (s : Totals)
    (t t' : PhaseTask.t) :
  same_effort t t' -> process_task roleRates s t = process_task roleRates s t'.
Proof.
  destruct t, t'. unfold same_effort. simpl. intros (-> & -> & ->). reflexivity.
Qed.

Lemma fold_process_task_effort (roleRates : RateStore)
    (ts ts' : list PhaseTask.t) (s : Totals) :
  Forall2 same_effort ts ts' ->
  fold_left (process_task roleRates) ts s = fold_left (process_task roleRates) ts' s.
Proof.
  intros H. revert s. induction H as [|t t' ts ts' Ht _ IH]; intros s; [reflexivity|].
  cbn [fold_left]. rewrite (process_task_effort _ _ _ _ Ht). apply IH.
Qed.

Lemma process_phases_work (roleRates : RateStore)
    (phases phases' : list PhaseEstimate.t) (s : Totals) :
  same_work phases phases' ->
  snd (process_phases roleRates s phases) = snd (process_phases roleRates s phases') /\
  map PhaseEstimate.estimatedCost (fst (process_phases roleRates s phases))
  = map PhaseEstimate.estimatedCost (fst (process_phases roleRates s phases')).
Proof.
  intros H. revert s. induction H as [|p p' ps ps' Hp _ IH]; intros s.
  - split; reflexivity.
  - cbn [process_phases]. unfold process_phase.
    rewrite (fold_process_task_effort _ _ _ _ Hp).
    set (s1 := fold_left _ (PhaseEstimate.tasks p') _).
    specialize (IH s1).
    destruct (process_phases roleRates s1 ps) as [q t].
    destruct (process_phases roleRates s1 ps') as [q' t'].
    cbn [fst snd] in *. destruct IH as [-> Hc].
    split; [reflexivity|]. cbn [map]. now rewrite Hc.
Qed.

(** X9: the aggregation reads the hours, the role and the hourly rate
    of the tasks and nothing else of the document.  Two documents whose
    phases have tasks that agree on these three give the same totals,
    the same breakdown and the same phase costs under every store,
    whatever costs and hours the service reported for the phases and
    the tasks. *)
Theorem aggregate_reads_only_effort (data data' : EstimationResult.t)
    (roleRates : RateStore)
    (Hwork : same_work (EstimationResult.phases data) (EstimationResult.phases data')) :
  let a := aggregate data roleRates in
  let a' := aggregate data' roleRates in
  totalCalculatedCost a = totalCalculatedCost a' /\
  totalCalculatedHours a = totalCalculatedHours a' /\
  calculatedBreakdown a = calculatedBreakdown a' /\
  map PhaseEstimate.estimatedCost (phasesWithDynamicCost a)
  = map PhaseEstimate.estimatedCost (phasesWithDynamicCost a').
Proof.
  cbn zeta. unfold aggregate.
  destruct (process_phases_work roleRates _ _
              {| phaseCost := JS.zero; breakdownMap := [];
                 totalCost := JS.zero; totalHours := JS.zero |} Hwork) as [Hs Hc].
  destruct (process_phases roleRates _ (EstimationResult.phases data)) as [ps s].
  destruct (process_phases roleRates _ (EstimationResult.phases data')) as [ps' s'].
  cbn [fst snd] in *. subst s'. auto.
Qed.

Lemma aggregate_reads_only_effort_witness :
  same_work (EstimationResult.phases qa_document)
            (EstimationResult.phases qa_document_recosted) /\
  totalCalculatedCost (aggregate qa_document ∅)
  = totalCalculatedCost (aggregate qa_document_recosted ∅).
Proof.
  assert (H : same_work (EstimationResult.phases qa_document)
                        (EstimationResult.phases qa_document_recosted)).
  { repeat constructor. }
  split; [exact H|].
  exact (proj1 (aggregate_reads_only_effort qa_document qa_document_recosted ∅ H)).
Defined.

(** ** The timeline grid for any duration *)

Lemma timelineGroups_result (maxDuration : number) (anchor : Date.t) :
  timelineGroups maxDuration anchor
  = grid_result <$> grid_loop maxDuration anchor (grid_fuel maxDuration) 1
                      (mkGrid [] EmptyString []).
Proof. unfold timelineGroups. now destruct (grid_loop _ _ _ _ _). Qed.

Lemma grid_result_weeks (st : GridState) :
  concat (map weeks (grid_result st)) = grid_flat st.
Proof.
  unfold grid_result, grid_flat.
  destruct (currentWeekList st) as [|x xs]; cbn [length Nat.ltb Nat.leb].
  - now rewrite app_nil_r.
  - rewrite map_app, concat_app. simpl. now rewrite app_nil_r.
Qed.

Lemma leb_floor (w : Z) (q : Qc) :
  JS.leb (JS.of_Z w) (Fin q) = JS.leb (JS.of_Z w) (JS.of_Z (Qfloor (this q))).
Proof.
  rewrite leb_of_Z. unfold JS.leb, JS.of_Z.
  destruct (w <=? Qfloor (this q))%Z eqn:E.
  - apply Z.leb_le in E. apply bool_decide_eq_true. unfold Qcle.
    change (Qred (inject_Z w) <= this q)%Q. rewrite Qred_correct.
    apply Qle_trans with (inject_Z (Qfloor (this q))); [|apply Qfloor_le].
    now rewrite <- Zle_Qle.
  - apply Z.leb_gt in E. apply bool_decide_eq_false. unfold Qcle.
    change (~ (Qred (inject_Z w) <= this q)%Q). rewrite Qred_correct.
    intros H. apply Qfloor_resp_le in H. rewrite Qfloor_Z in H. lia.
Qed.

Lemma grid_loop_floor (q : Qc) (anchor : Date.t) (fuel : nat) (w : Z)
    (st : GridState) :
  grid_loop (Fin q) anchor fuel w st
  = grid_loop (JS.of_Z (Qfloor (this q))) anchor fuel w st.
Proof.
  revert w st. induction fuel as [|fuel IH]; intros w st; cbn [grid_loop];
    rewrite leb_floor; [reflexivity|].
  destruct (JS.leb _ _); [apply IH | reflexivity].
Qed.

Lemma timeline_weeks_of_Z (n : Z) (anchor : Date.t) :
  exists gs,
    timelineGroups (JS.of_Z n) anchor = Some gs /\
    concat (map weeks gs) = seqZ 1 n.
Proof.
  rewrite timelineGroups_result, grid_fuel_of_Z.
  destruct (grid_loop_runs n anchor (Z.to_nat n) (Z.to_nat n) 1
              (mkGrid [] EmptyString []))
    as (st & Hl & Hfl & _); [f_equal; lia | lia | split; constructor |].
  rewrite Hl. exists (grid_result st). split; [reflexivity|].
  rewrite grid_result_weeks, Hfl.
  change (grid_flat (mkGrid [] EmptyString [])) with (@nil Z).
  rewrite app_nil_l. f_equal. lia.
Qed.

Lemma timeline_empty (n : Z) (anchor : Date.t) :
  n <= 0 -> timelineGroups (JS.of_Z n) anchor = Some [].
Proof.
  intros Hn. unfold timelineGroups. rewrite grid_fuel_of_Z.
  replace (Z.to_nat n) with O by lia. cbn [grid_loop].
  rewrite leb_of_Z. now rewrite (proj2 (Z.leb_gt 1 n)) by lia.
Qed.

Lemma timeline_floor (q : Qc) (anchor : Date.t) :
  timelineGroups (Fin q) anchor
  = timelineGroups (JS.of_Z (Qfloor (this q))) anchor.
Proof.
  rewrite !timelineGroups_result.
  replace (grid_fuel (JS.of_Z (Qfloor (this q)))) with (grid_fuel (Fin q))
    by (now rewrite grid_fuel_of_Z).
  now rewrite grid_loop_floor.
Qed.

(** X10: the grid for a duration that is not a whole number or not a
    number.  For a finite duration [q] the builder returns groups whose
    weeks are 1, ..., floor(q), so a fraction of a week at the end gets
    no column and a duration below 1 gives no group; for NaN and for
    -Infinity it returns no group. *)
Theorem timeline_any_duration (anchor : Date.t) :
  (forall q : Qc, exists gs,
      timelineGroups (Fin q) anchor = Some gs /\
      concat (map weeks gs) = seqZ 1 (Qfloor (this q)) /\
      ((q < Q2Qc 1)%Qc -> gs = [])) /\
  timelineGroups NaN anchor = Some [] /\
  timelineGroups NInf anchor = Some [].
Proof.
  split; [|split; reflexivity].
  intros q.
  destruct (timeline_weeks_of_Z (Qfloor (this q)) anchor) as (gs & Hgs & Hw).
  exists gs. split; [|split; [exact Hw|]].
  - now rewrite timeline_floor.
  - intros Hq.
    assert (Hf : Qfloor (this q) <= 0).
    { apply Z.lt_succ_r. apply Z.nle_gt. intros H1.
      apply (Qclt_not_le _ _ Hq). unfold Qcle.
      change (Qred 1 <= this q)%Q. rewrite Qred_correct.
      apply Qle_trans with (inject_Z (Qfloor (this q))); [|apply Qfloor_le].
      change 1%Q with (inject_Z 1). now rewrite <- Zle_Qle. }
    rewrite (timeline_empty _ anchor Hf) in Hgs. now injection Hgs as <-.
Qed.

Lemma distinct_neighbours_snoc (ls : list string) (x : string) :
  distinct_neighbours ls -> last ls <> Some x -> distinct_neighbours (ls ++ [x]).
Proof.
  induction ls as [|a ls IH]; intros Hd Hl; [exact I|].
  destruct ls as [|b ls].
  - simpl in *. split; [congruence | exact I].
  - destruct Hd as [Hab Hd]. split; [exact Hab|].
    apply IH; [exact Hd | exact Hl].
Qed.

Lemma grid_step_runs (anchor : Date.t) (w : Z) (st : GridState) :
  grid_runs st -> grid_runs (grid_step anchor w st).
Proof.
  intros [Hempty Hd]. unfold grid_runs, grid_step, grid_result in *.
  destruct (bool_decide (_ = currentMonthLabel st)) eqn:E; cbn [negb];
    cbn [groups currentMonthLabel currentWeekList].
  - split; [now destruct (currentWeekList st)|].
    destruct (currentWeekList st) as [|x xs]; cbn [length Nat.ltb Nat.leb app] in *.
    + rewrite (Hempty eq_refl). exact I.
    + rewrite map_app in *. exact Hd.
  - apply bool_decide_eq_false in E. split; [discriminate|].
    cbn [length Nat.ltb Nat.leb].
    destruct (currentWeekList st) as [|x xs]; cbn [length Nat.ltb Nat.leb] in *.
    + rewrite (Hempty eq_refl). exact I.
    + rewrite map_app. apply distinct_neighbours_snoc; [exact Hd|].
      rewrite map_app. simpl. rewrite last_snoc. congruence.
Qed.

Lemma grid_loop_keeps_runs (maxDuration : number) (anchor : Date.t)
    (fuel : nat) (w : Z) (st st' : GridState) :
  grid_runs st ->
  grid_loop maxDuration anchor fuel w st = Some st' -> grid_runs st'.
Proof.
  revert w st. induction fuel as [|fuel IH]; intros w st Hr; cbn [grid_loop];
    destruct (JS.leb _ _); try discriminate; try (now intros [= <-]).
  apply IH. now apply grid_step_runs.
Qed.

(** X11: the groups are maximal runs.  Whatever the duration, two
    groups that follow one another in the result of the builder carry
    different month labels: a new group is opened only when the label
    changes. *)
Theorem timeline_runs_maximal (maxDuration : number) (anchor : Date.t)
    (gs : list Group)
    (Hgs : timelineGroups maxDuration anchor = Some gs) :
  distinct_neighbours (map monthLabel gs).
Proof.
  rewrite timelineGroups_result in Hgs.
  destruct (grid_loop _ _ _ _ _) as [st|] eqn:El; [|discriminate].
  injection Hgs as <-.
  apply (grid_loop_keeps_runs _ _ _ _ _ st) in El; [apply El|].
  split; [reflexivity | exact I].
Qed.

Lemma timeline_runs_maximal_witness :
  distinct_neighbours ["marzo de 2025"; "abril de 2025"].
Proof.
  apply (timeline_runs_maximal (JS.of_Z 5) (Date.make 2025 2 25)
           [mkGroup "marzo de 2025" [1]; mkGroup "abril de 2025" [2; 3; 4; 5]]).
  vm_compute. reflexivity.
Defined.

(** ** The width of the grid and the bars in it *)













(** ** The input form *)








Lemma form_rate_set (f : InputSection.t) (role : FixedRole) (value : string) :
  InputSection.rates (InputSection.handleRateChange f role value) role
  = (if isNaN (parseFloat value) then JS.zero else parseFloat value) /\
  forall other, other <> role ->
    InputSection.rates (InputSection.handleRateChange f role value) other
    = InputSection.rates f other.
Proof.
  unfold InputSection.handleRateChange. cbn [InputSection.rates]. split.
  - now rewrite bool_decide_eq_true_2.
  - intros other Hne. now rewrite bool_decide_eq_false_2.
Qed.






(** The head of a string of the rate pattern is no space, no sign and
    not the head of [Infinity]. *)
Lemma parseFloat_head (c : ascii) (u : string) :
  is_digit c || is_dot c = true ->
  parseFloat (String c u) = parse_unsigned (String c u) /\
  String.prefix "Infinity" (String c u) = false.
Proof.
  intros H.
  destruct c as [[] [] [] [] [] [] [] []]; try discriminate H; split; reflexivity.
Qed.

Lemma pow10_zero (q : Qc) : (q * pow10 0)%Qc = q.
Proof.
  unfold pow10. change (Q2Qc (Qpower (inject_Z 10) 0)) with 1%Qc. ring.
Qed.

Lemma parse_unsigned_accepted (s : string) :
  matches rate_regex s -> s <> EmptyString ->
  String.prefix "Infinity" s = false ->
  parse_unsigned s = Number_of_string s.
Proof.
  intros H Hne Hp. unfold parse_unsigned, Number_of_string. rewrite Hp.
  rewrite bool_decide_eq_false_2 by exact Hne. clear Hp.
  apply rate_regex_language in H as (a & b & Ha & Hb & [-> | ->]).
  - rewrite (span_digits_all (a ++ b)) by (now rewrite all_digits_app, Ha, Hb).
    now rewrite bool_decide_eq_false_2.
  - rewrite (span_digits_app _ _ Ha).
    change (span_digits (String "." b)) with (EmptyString, String "."%char b).
    cbn [fst snd]. rewrite string_app_nil_r.
    change (is_dot ".") with true. cbv iota.
    rewrite (span_digits_all _ Hb).
    rewrite (bool_decide_eq_true_2 (EmptyString = EmptyString)) by reflexivity.
    cbn [andb].
    destruct (bool_decide (a = EmptyString) && bool_decide (b = EmptyString));
      [reflexivity|].
    cbn [negb]. change (exponent_value EmptyString) with 0. now rewrite pow10_zero.
Qed.

(** X17: the form and the dashboard read a rate alike.  On a text of
    the rate pattern that is not empty, [parseFloat] and [Number] give
    the same number; hence the rate that the form stores for such a
    text, or for the empty text, is the rate that the dashboard applies
    for it, the lone dot apart (0 in the form, NaN in the dashboard). *)
Theorem form_and_dashboard_agree (s : string) (Hacc : accepted_rate s) :
  (s <> EmptyString -> parseFloat s = Number_of_string s) /\
  (s <> "." ->
   forall f role,
     InputSection.rates (InputSection.handleRateChange f role s) role
     = Number_of_string s).
Proof.
  assert (H1 : s <> EmptyString -> parseFloat s = Number_of_string s).
  { intros Hne. destruct Hacc as [-> | Hm]; [congruence|].
    destruct s as [|c u]; [congruence|].
    assert (Hc : is_digit c || is_dot c = true).
    { apply rate_regex_language in Hm as (a & b & Ha & Hb & [E | E]).
      - destruct a as [|c' a].
        + change (String c u = b) in E. subst b. simpl in Hb.
          apply andb_prop in Hb as [-> _]. reflexivity.
        + change (String c u = String c' (a ++ b)) in E.
          injection E as -> _. simpl in Ha. apply andb_prop in Ha as [-> _].
          reflexivity.
      - destruct a as [|c' a].
        + change (String c u = String "." b) in E.
          injection E as -> _. apply orb_true_r.
        + change (String c u = String c' (a ++ String "." b)) in E.
          injection E as -> _. simpl in Ha. apply andb_prop in Ha as [-> _].
          reflexivity. }
    destruct (parseFloat_head c u Hc) as [-> Hp].
    now apply parse_unsigned_accepted. }
  split; [exact H1|].
  intros Hdot f role. destruct (form_rate_set f role s) as [-> _].
  destruct (decide (s = EmptyString)) as [-> | Hne]; [reflexivity|].
  rewrite (H1 Hne).
  destruct (Number_of_accepted s Hacc) as [[E _] | (q & -> & _)]; [congruence|].
  reflexivity.
Qed.

Lemma form_and_dashboard_agree_witness :
  accepted_rate "55.5" /\ parseFloat "55.5" = Number_of_string "55.5".
Proof.
  assert (H : accepted_rate "55.5")
    by (right; apply rate_pattern_test_spec; reflexivity).
  split; [exact H|].
  apply (proj1 (form_and_dashboard_agree "55.5" H)). discriminate.
Defined.

(** ** The screens of the application *)

Section AppFacts.

Variable JSON_parse : string -> option EstimationResult.t.

Lemma handleAnalyze_two_steps (app : App) (apiKey : option string)
    (service : ServiceOutcome) (metadata : ProjectMetadata.t) :
  handleAnalyze JSON_parse app apiKey service metadata
  = analyze_settle (analyze_start app)
      (analyzePRD JSON_parse apiKey service metadata).
Proof.
  unfold handleAnalyze, analyze_settle.
  now destruct (analyzePRD JSON_parse apiKey service metadata).
Qed.



Lemma analyzePRD_success (apiKey : option string) (service : ServiceOutcome)
    (metadata : ProjectMetadata.t) (d : EstimationResult.t) :
  analyzePRD JSON_parse apiKey service metadata = inr d <->
  string_truthy apiKey = true /\
  exists text data,
    service = Resolves (Some text) /\ text <> EmptyString /\
    JSON_parse text = Some data /\ d = with_requester data metadata.
Proof.
  unfold analyzePRD. split.
  - destruct (string_truthy apiKey); simpl; [|discriminate].
    destruct service as [m | [text|]]; simpl; try discriminate.
    destruct (bool_decide (text = EmptyString)) eqn:Et; simpl; [discriminate|].
    apply bool_decide_eq_false in Et.
    destruct (JSON_parse text) as [data|] eqn:Ep; [|discriminate].
    intros [= <-]. split; [reflexivity|]. exists text, data. auto.
  - intros (-> & text & data & -> & Ht & Hp & ->). simpl.
    rewrite bool_decide_eq_false_2 by exact Ht. simpl. now rewrite Hp.
Qed.

(** X19: when an analysis succeeds.  If the key is set, the service
    answers with a text that is not empty and the text parses, then
    [handleAnalyze] shows the result screen with the parsed document, in
    which the requester and the date are those of the form, whatever
    the service wrote there, and with no error message. *)
Theorem analysis_success (app : App) (apiKey : option string) (text : string)
    (metadata : ProjectMetadata.t) (data : EstimationResult.t)
    (Hkey : string_truthy apiKey = true)
    (Htext : text <> EmptyString)
    (Hparse : JSON_parse text = Some data) :
  let app' := handleAnalyze JSON_parse app apiKey (Resolves (Some text)) metadata in
  appState app' = AppState.result /\
  errorMsg app' = None /\
  exists d,
    result app' = Some d /\
    EstimationResult.requesterName d = ProjectMetadata.requesterName metadata /\
    EstimationResult.requestDate d = ProjectMetadata.date metadata /\
    d = with_requester data metadata /\
    EstimationResult.phases d = EstimationResult.phases data /\
    EstimationResult.costBreakdown d = EstimationResult.costBreakdown data /\
    EstimationResult.roadmap d = EstimationResult.roadmap data.
Proof.
  cbn zeta. unfold handleAnalyze.
  assert (E : analyzePRD JSON_parse apiKey (Resolves (Some text)) metadata
              = inr (with_requester data metadata)).
  { apply analyzePRD_success. split; [exact Hkey|]. exists text, data. auto. }
  rewrite E. simpl. split; [reflexivity|]. split; [reflexivity|].
  eexists. split; [reflexivity|]. repeat split.
Qed.

End AppFacts.

Lemma analysis_success_witness :
  appState (handleAnalyze (fun _ => Some qa_document) initial_app (Some "key")
              (Resolves (Some "{}")) (ProjectMetadata.mk "P" "Ana" "2025-03-01"
                                        (fun _ => qc 50)))
  = AppState.result.
Proof.
  apply (analysis_success (fun _ => Some qa_document) initial_app (Some "key") "{}"
           (ProjectMetadata.mk "P" "Ana" "2025-03-01" (fun _ => qc 50)) qa_document).
  - reflexivity.
  - discriminate.
  - reflexivity.
Defined.

(** ** More on keys and rate texts *)






(** ** The bar chart of the phases *)





(** ** The rate a role starts with *)






